(** * media-monkey: the frame-compositing pipeline of [pipeline/video_builder.py]

    A shallow embedding of the video builder (Ken Burns geometry, timeline
    compositor, caption overlay, audio mixing, visual loading) together with
    the properties its specification states about it.

    Conventions of the embedding
    - Python [float] values are exact rationals ([Q]); [int(x)] is truncation
      toward zero; [a // b] on integers is floor division ([Z.div]). The
      module [Binary64] repeats the scalar arithmetic on IEEE binary64 numbers,
      to evaluate it at concrete inputs with the rounding Python has.
    - Python [int] values are [Z].
    - A raised exception is the left summand of ExtLib's error monad
      [sum exn]; a function that cannot raise has a plain result type.
    - Pillow images are terms of [Image]: the pixel data is abstract, the
      sizes and the operations applied (crop, resize, blend, paste) are kept.
    - The outside world (file system, decoders, the ffmpeg binary) is the
      record [World]; every call to it is a field of that record. *)

From Stdlib Require Import ZArith QArith Qround Qminmax Lqa Lia List Finite String Bool.
From Stdlib Require Import Floats Uint63.
From ExtLib Require Import Structures.Monad Structures.MonadExc Data.Monads.EitherMonad.
Import ListNotations.
Import MonadNotation.

Local Open Scope string_scope.
Local Open Scope Z_scope.
Local Open Scope monad_scope.

(** ** Exceptions *)

Inductive exn : Type :=
| ZeroDivisionError
| IndexError
| ValueError (msg : string)
| RuntimeError (msg : string).

Abbreviation py := (sum exn).

(** ** Numbers *)

(** [int(x)] for a float [x]: truncation toward zero. *)
Definition int (x : Q) : Z := Z.quot (Qnum x) (Z.pos (Qden x)).

(** [x < y] on floats, as a boolean. *)
Definition Qltb (x y : Q) : bool := negb (Qle_bool y x).

(** [min(a, b)]: the first argument unless the second is strictly smaller. *)
Definition pymin (a b : Q) : Q := if Qltb b a then b else a.

(** [max(a, b)]: the first argument unless the second is strictly larger. *)
Definition pymax (a b : Q) : Q := if Qltb a b then b else a.

(** [a / b] on floats, or on integers (true division). *)
Definition fdiv (a b : Q) : py Q :=
  if Qeq_bool b 0 then raise ZeroDivisionError else ret (a / b)%Q.

(** [range(n)]. *)
Definition range (n : Z) : list Z := map Z.of_nat (seq 0 (Z.to_nat n)).

(** [l[i]] with Python's negative indices. *)
Definition getitem {A : Type} (l : list A) (i : Z) : py A :=
  let j := if i <? 0 then i + Z.of_nat (List.length l) else i in
  if j <? 0 then raise IndexError
  else match nth_error l (Z.to_nat j) with
       | Some x => ret x
       | None => raise IndexError
       end.

(** ** config.py *)

Record Config : Type := {
  VIDEO_WIDTH : Z;
  VIDEO_HEIGHT : Z;
  VIDEO_FPS : Z;
  MAX_DURATION : Z
}.

(** The values used when the environment sets none. *)
Definition default_config : Config :=
  {| VIDEO_WIDTH := 1080; VIDEO_HEIGHT := 1920; VIDEO_FPS := 30; MAX_DURATION := 59 |}.

(** ** Ken Burns configuration *)

Definition KB_SCALE : Q := 1.25.
Definition CROSSFADE_DURATION : Q := 0.6.

Definition KB_EFFECTS : list string :=
  [ "zoom_in"; "zoom_out"; "pan_left"; "pan_right"; "pan_up"; "pan_down";
    "zoom_in_pan_right"; "zoom_out_pan_left" ].

(** [_smoothstep]: Hermite smoothstep of the clamped argument. *)
Definition _smoothstep (t : Q) : Q :=
  let t := pymax 0 (pymin 1 t) in
  (t * t * (3 - 2 * t))%Q.

(** ** Images *)

Definition Box : Type := Z * Z * Z * Z.

Inductive Image : Type :=
| Pixels (name : string) (width height : Z)
| Crop (src : Image) (box : Box)
| Resize (src : Image) (size : Z * Z)
| Blend (im1 im2 : Image) (alpha : Q)
| Layer (text : string) (size : Z * Z)
| Paste (base overlay : Image) (pos : Z * Z).

(** [img.size]. *)
Fixpoint size (img : Image) : Z * Z :=
  match img with
  | Pixels _ w h => (w, h)
  | Crop _ (l, t, r, b) => (r - l, b - t)
  | Resize _ s => s
  | Blend a _ _ => size a
  | Layer _ s => s
  | Paste base _ _ => size base
  end.

Definition size_eqb (a b : Z * Z) : bool :=
  (fst a =? fst b) && (snd a =? snd b).

(** The size [_resize_for_ken_burns] gives every scene visual. *)
Definition kb_canvas_size (cfg : Config) : Z * Z :=
  (int (inject_Z (VIDEO_WIDTH cfg) * KB_SCALE), int (inject_Z (VIDEO_HEIGHT cfg) * KB_SCALE)).

(** ** The Ken Burns engine *)

(** The effect branch of [_apply_ken_burns]: the crop [(cx, cy, cw, ch)]
    before clamping. *)
Definition kb_rect (iw ih vw vh : Z) (effect : string) (t : Q) : py Box :=
  let max_dx := iw - vw in
  let max_dy := ih - vh in
  if String.eqb effect "zoom_in" then
    r <- fdiv (inject_Z vw) (inject_Z iw) ;;
    let scale := (1 - t * (1 - r))%Q in
    let cw := int (inject_Z iw * scale) in
    let ch := int (inject_Z ih * scale) in
    ret ((iw - cw) / 2, (ih - ch) / 2, cw, ch)
  else if String.eqb effect "zoom_out" then
    r <- fdiv (inject_Z vw) (inject_Z iw) ;;
    let scale := (r + t * (1 - r))%Q in
    let cw := int (inject_Z iw * scale) in
    let ch := int (inject_Z ih * scale) in
    ret ((iw - cw) / 2, (ih - ch) / 2, cw, ch)
  else if String.eqb effect "pan_left" then
    ret (int (inject_Z max_dx * (1 - t)), max_dy / 2, vw, vh)
  else if String.eqb effect "pan_right" then
    ret (int (inject_Z max_dx * t), max_dy / 2, vw, vh)
  else if String.eqb effect "pan_up" then
    ret (max_dx / 2, int (inject_Z max_dy * (1 - t)), vw, vh)
  else if String.eqb effect "pan_down" then
    ret (max_dx / 2, int (inject_Z max_dy * t), vw, vh)
  else if String.eqb effect "zoom_in_pan_right" then
    r <- fdiv (inject_Z vw) (inject_Z iw) ;;
    let scale := (1 - t * (1 - r) * 0.6)%Q in
    let cw := int (inject_Z iw * scale) in
    let ch := int (inject_Z ih * scale) in
    ret (int (inject_Z (iw - cw) * t), (ih - ch) / 2, cw, ch)
  else if String.eqb effect "zoom_out_pan_left" then
    r <- fdiv (inject_Z vw) (inject_Z iw) ;;
    let scale := (r + t * (1 - r) * 0.6)%Q in
    let cw := int (inject_Z iw * scale) in
    let ch := int (inject_Z ih * scale) in
    ret (int (inject_Z (iw - cw) * (1 - t)), (ih - ch) / 2, cw, ch)
  else
    ret (max_dx / 2, max_dy / 2, vw, vh).

(** "Clamp to image bounds": the box handed to [img.crop]. *)
Definition kb_clamp (iw ih : Z) (rect : Box) : Box :=
  let '(cx, cy, cw, ch) := rect in
  let cw := Z.max 1 (Z.min cw iw) in
  let ch := Z.max 1 (Z.min ch ih) in
  let cx := Z.max 0 (Z.min cx (iw - cw)) in
  let cy := Z.max 0 (Z.min cy (ih - ch)) in
  (cx, cy, cx + cw, cy + ch).

Definition _apply_ken_burns (cfg : Config) (img : Image) (effect : string)
    (progress : Q) : py Image :=
  let t := _smoothstep progress in
  let '(iw, ih) := size img in
  let vw := VIDEO_WIDTH cfg in
  let vh := VIDEO_HEIGHT cfg in
  rect <- kb_rect iw ih vw vh effect t ;;
  let cropped := Crop img (kb_clamp iw ih rect) in
  if negb (size_eqb (size cropped) (vw, vh)) then ret (Resize cropped (vw, vh))
  else ret cropped.

(** ** The outside world *)

Definition Path : Type := list string.

(** [p.parent / name]. *)
Definition sibling (p : Path) (name : string) : Path := (removelast p ++ [name])%list.

(** [p.name]. *)
Definition basename (p : Path) : string := last p "".

Record Cue : Type := {
  cue_start : Q;
  cue_end : Q;
  cue_text : string
}.

(** A loaded font: its size and, for a text, the number of lines the greedy
    word wrap of [_render_caption] yields under the font's metrics. *)
Record Font : Type := {
  font_size : Z;
  wrapped_lines : string -> Z
}.

Record World : Type := {
  (** [shutil.which("ffmpeg")], else the bundled binary, else nothing *)
  find_ffmpeg : option string;
  (** [len(AudioSegment.from_file(p))], in milliseconds *)
  audio_ms : Path -> Z;
  (** [p.exists()] *)
  file_exists : Path -> bool;
  (** [Image.open(p).convert("RGB")] *)
  image_open : Path -> py Image;
  (** one frame of a clip: [ffmpeg -i clip -vframes 1 tmp] and [Image.open(tmp)] *)
  grab_frame : Path -> py Image;
  (** return code of the mixing run of ffmpeg *)
  mixer_returncode : Path -> Path -> Q -> Z;
  (** [pysrt.open(p)], already as cues in seconds *)
  srt_cues : Path -> list Cue;
  (** [_get_font(size, language)] *)
  load_font : Z -> string -> Font;
  (** the [i]-th draw of [random.choice(KB_EFFECTS)], as an index *)
  random_index : nat -> nat;
  (** how many frames the encoder reads before it closes its input
      ([None]: it reads them all) *)
  encoder_reads : option nat;
  (** return code of the encoder *)
  encoder_returncode : Z
}.

(** [_get_ffmpeg]. *)
Definition _get_ffmpeg (w : World) : py string :=
  match find_ffmpeg w with
  | Some exe => ret exe
  | None => raise (RuntimeError "ffmpeg not found")
  end.

(** [_audio_duration]: seconds. *)
Definition _audio_duration (w : World) (audio_path : Path) : Q :=
  (inject_Z (audio_ms w audio_path) / 1000)%Q.

(** ** Visual normalizer *)

Definition _resize_for_ken_burns (cfg : Config) (img : Image) : py Image :=
  let target_w := int (inject_Z (VIDEO_WIDTH cfg) * KB_SCALE) in
  let target_h := int (inject_Z (VIDEO_HEIGHT cfg) * KB_SCALE) in
  target_ratio <- fdiv (inject_Z target_w) (inject_Z target_h) ;;
  let '(width, height) := size img in
  img_ratio <- fdiv (inject_Z width) (inject_Z height) ;;
  new <- (if Qltb target_ratio img_ratio then
            r <- fdiv (inject_Z target_h) (inject_Z height) ;;
            ret (int (inject_Z width * r), target_h)
          else
            r <- fdiv (inject_Z target_w) (inject_Z width) ;;
            ret (target_w, int (inject_Z height * r))) ;;
  let '(new_w, new_h) := new in
  let img := Resize img (new_w, new_h) in
  let left := (new_w - target_w) / 2 in
  let top := (new_h - target_h) / 2 in
  ret (Crop img (left, top, left + target_w, top + target_h)).

(** The [try] body of the loops of [_load_images_for_kb] and
    [_extract_clip_frames_for_kb], and one pass of those loops: the image is
    appended, or the [except Exception] branch prints a warning. *)
Definition try_load (cfg : Config) (open : Path -> py Image) (p : Path) : py Image :=
  img <- open p ;;
  _resize_for_ken_burns cfg img.

Definition load_one (cfg : Config) (open : Path -> py Image) (warning : string)
    (acc : list Image * list string) (p : Path) : list Image * list string :=
  let '(imgs, out) := acc in
  match try_load cfg open p with
  | inr img => ((imgs ++ [img])%list, out)
  | inl _ => (imgs, (out ++ [String.append warning (basename p)])%list)
  end.

(** [_load_images_for_kb]: the images, and the lines printed. *)
Definition _load_images_for_kb (w : World) (cfg : Config) (paths : list Path)
    : list Image * list string :=
  fold_left (load_one cfg (image_open w) "Skipping ") paths ([], []).

(** [_extract_clip_frames_for_kb]: the frames, and the lines printed. *)
Definition _extract_clip_frames_for_kb (w : World) (cfg : Config) (clip_paths : list Path)
    : list Image * list string :=
  fold_left (load_one cfg (grab_frame w) "Frame extraction failed for ") clip_paths ([], []).

(** "Load & prepare visuals" of [build_video]. *)
Definition prepare_visuals (w : World) (cfg : Config) (scene_images : list Path)
    (background_clips : option (list Path)) : py (list Image * list string) :=
  loaded <- match scene_images with
            | _ :: _ => ret (_load_images_for_kb w cfg scene_images)
            | [] =>
                match background_clips with
                | Some ((_ :: _) as clips) => ret (_extract_clip_frames_for_kb w cfg clips)
                | _ => raise (ValueError "No scene images or background clips provided")
                end
            end ;;
  match fst loaded with
  | [] => raise (ValueError "Failed to prepare any visual frames")
  | _ :: _ => ret loaded
  end.

(** ** Audio mixer *)

Definition _mix_audio (w : World) (voiceover : Path) (music : option Path) (dur : Q) : Path :=
  match music with
  | None => voiceover
  | Some m =>
      if negb (file_exists w m) then voiceover
      else
        let mixed := sibling voiceover "mixed_audio.aac" in
        if negb (mixer_returncode w voiceover m dur =? 0) then voiceover
        else mixed
  end.

(** ** Caption overlay *)

Definition _render_caption (cfg : Config) (text : string) (font : Font) : Image :=
  let line_h := int (inject_Z (font_size font) * 1.5) in
  let pad := 20 in
  let img_h := line_h * wrapped_lines font text + pad * 2 in
  Layer text (VIDEO_WIDTH cfg, img_h).

(** [c["start"] <= t < c["end"]]. *)
Definition cue_active (t : Q) (c : Cue) : bool :=
  Qle_bool (cue_start c) t && Qltb t (cue_end c).

(** One pass of the paste loop of [_composite_caption]. *)
Definition paste_caption (cfg : Config) (font : Font) (frame : Image) (cap : Cue) : Image :=
  let overlay := _render_caption cfg (cue_text cap) font in
  let y := int (inject_Z (VIDEO_HEIGHT cfg) * 0.72) - snd (size overlay) / 2 in
  let y := Z.max 0 (Z.min y (VIDEO_HEIGHT cfg - snd (size overlay))) in
  Paste frame overlay (0, y).

Definition _composite_caption (cfg : Config) (base : Image) (captions : list Cue)
    (font : Font) (t : Q) : Image :=
  let active := filter (cue_active t) captions in
  match active with
  | [] => base
  | _ :: _ => fold_left (paste_caption cfg font) active base
  end.

(** ** Timeline compositor *)

(** [target_dur] of [build_video]. *)
Definition target_duration (w : World) (cfg : Config) (voiceover_path : Path) : Q :=
  pymin (_audio_duration w voiceover_path) (inject_Z (MAX_DURATION cfg)).

(** [total_frames] of [build_video]. *)
Definition total_frames (cfg : Config) (target_dur : Q) : Z :=
  int (target_dur * inject_Z (VIDEO_FPS cfg)).

(** "Determine current scene": [(scene_idx, scene_start, scene_progress)]. *)
Definition scene_clock (n_scenes : Z) (dur_per_scene t : Q) : py (Z * Q * Q) :=
  q <- fdiv t dur_per_scene ;;
  let scene_idx := Z.min (int q) (n_scenes - 1) in
  let scene_start := (inject_Z scene_idx * dur_per_scene)%Q in
  p <- fdiv (t - scene_start) dur_per_scene ;;
  let scene_progress := pymax 0 (pymin 1 p) in
  ret (scene_idx, scene_start, scene_progress).

(** The blend weight for a remaining scene time. *)
Definition crossfade_alpha (time_to_end : Q) : py Q :=
  a <- fdiv time_to_end CROSSFADE_DURATION ;;
  let alpha := (1 - a)%Q in
  ret (_smoothstep alpha).

(** "Crossfade transition to next scene": when the frame blends,
    [(next_idx, alpha, next_progress)]. *)
Definition crossfade_plan (n_scenes : Z) (dur_per_scene : Q) (scene_idx : Z)
    (scene_start t : Q) : py (option (Z * Q * Q)) :=
  let scene_end := (scene_start + dur_per_scene)%Q in
  let time_to_end := (scene_end - t)%Q in
  let next_idx := scene_idx + 1 in
  if (next_idx <? n_scenes) && Qltb time_to_end CROSSFADE_DURATION then
    alpha <- crossfade_alpha time_to_end ;;
    let time_into_next := (CROSSFADE_DURATION - time_to_end)%Q in
    p <- fdiv time_into_next dur_per_scene ;;
    let next_progress := pymax 0 (pymin 1 p) in
    ret (Some (next_idx, alpha, next_progress))
  else ret None.

(** The body of the render loop: the frame written for [frame_idx]. The
    second division is the one of the progress indicator, whose value is only
    printed. *)
Definition render_frame (cfg : Config) (kb_frames : list Image) (effects : list string)
    (captions : list Cue) (font : Font) (total : Z) (n_scenes : Z) (dur_per_scene : Q)
    (frame_idx : Z) : py Image :=
  t <- fdiv (inject_Z frame_idx) (inject_Z (VIDEO_FPS cfg)) ;;
  _ <- fdiv (inject_Z frame_idx) (inject_Z total) ;;
  clock <- scene_clock n_scenes dur_per_scene t ;;
  let '(scene_idx, scene_start, scene_progress) := clock in
  img <- getitem kb_frames scene_idx ;;
  effect <- getitem effects scene_idx ;;
  frame <- _apply_ken_burns cfg img effect scene_progress ;;
  plan <- crossfade_plan n_scenes dur_per_scene scene_idx scene_start t ;;
  frame <- match plan with
           | Some (next_idx, alpha, next_progress) =>
               img_b <- getitem kb_frames next_idx ;;
               effect_b <- getitem effects next_idx ;;
               frame_b <- _apply_ken_burns cfg img_b effect_b next_progress ;;
               ret (Blend frame frame_b alpha)
           | None => ret frame
           end ;;
  match captions with
  | [] => ret frame
  | _ :: _ => ret (_composite_caption cfg frame captions font t)
  end.

(** The render loop over the frame indices still to do. [room] is the number
    of frames the encoder still reads; a write past it raises
    [BrokenPipeError], which ends the loop. [written] is what the encoder
    has received. *)
Fixpoint render_loop (body : Z -> py Image) (todo : list Z) (room : option nat)
    (written : list Image) : py (list Image) :=
  match todo with
  | [] => ret written
  | frame_idx :: rest =>
      frame <- body frame_idx ;;
      match room with
      | Some O => ret written
      | Some (S k) => render_loop body rest (Some k) (written ++ [frame])%list
      | None => render_loop body rest None (written ++ [frame])%list
      end
  end.

Record Video : Type := {
  video_path : Path;
  video_frames : list Image;
  video_audio : Path;
  video_duration : Q;
  video_log : list string
}.

Definition build_video (w : World) (cfg : Config) (scene_images : list Path)
    (voiceover_path : Path) (captions_srt_path : option Path) (output_path : Path)
    (background_music_path : option Path) (background_clips : option (list Path))
    (language : string) : py Video :=
  ffmpeg <- _get_ffmpeg w ;;
  let target_dur := target_duration w cfg voiceover_path in
  visuals <- prepare_visuals w cfg scene_images background_clips ;;
  let '(kb_frames, out) := visuals in
  let effects :=
    map (fun i => nth (random_index w i mod List.length KB_EFFECTS)%nat KB_EFFECTS "zoom_in")
        (seq 0 (List.length kb_frames)) in
  let font := load_font w 58 language in
  let captions := match captions_srt_path with
                  | Some p => if file_exists w p then srt_cues w p else []
                  | None => []
                  end in
  let audio_path := _mix_audio w voiceover_path background_music_path target_dur in
  let total := total_frames cfg target_dur in
  let n_scenes := Z.of_nat (List.length kb_frames) in
  dur_per_scene <- fdiv target_dur (inject_Z n_scenes) ;;
  frames <- render_loop
              (render_frame cfg kb_frames effects captions font total n_scenes dur_per_scene)
              (range total) (encoder_reads w) [] ;;
  if negb (encoder_returncode w =? 0) then raise (RuntimeError "ffmpeg error")
  else ret {| video_path := output_path; video_frames := frames;
              video_audio := audio_path; video_duration := target_dur;
              video_log := out |}.

(** ** A concrete world: scenario A of the specification
    (three scene images, no captions, no music, ten seconds of narration). *)

Definition scenario_world (ms : Z) (reads : option nat) : World :=
  {| find_ffmpeg := Some "/usr/bin/ffmpeg";
     audio_ms := fun _ => ms;
     file_exists := fun _ => true;
     image_open := fun p => if String.eqb (basename p) "broken.png"
                            then inl (ValueError "cannot identify image file")
                            else inr (Pixels (basename p) 1024 1024);
     grab_frame := fun p => inr (Pixels (basename p) 1920 1080);
     mixer_returncode := fun _ _ _ => 1;
     srt_cues := fun _ => [];
     load_font := fun sz _ => {| font_size := sz; wrapped_lines := fun _ => 1 |};
     random_index := fun i => i;
     encoder_reads := reads;
     encoder_returncode := 0 |}.

Definition scenario_images (n : nat) : list Path :=
  map (fun i => ["scenes"; String.append "scene" (String (Ascii.ascii_of_nat (48 + i)) "")])
      (seq 0 n).

Definition frames_built (r : py Video) : option nat :=
  match r with
  | inr v => Some (List.length (video_frames v))
  | inl _ => None
  end.

(** ** Observations the statements use *)

(** The canvas and the box a frame of the Ken Burns engine was cropped from. *)
Definition crop_of (frame : Image) : option (Image * Box) :=
  match frame with
  | Crop src box => Some (src, box)
  | Resize (Crop src box) _ => Some (src, box)
  | _ => None
  end.

(** A crop box [(left, upper, right, lower)] lies within an image of size [sz]
    and is not empty. *)
Definition box_inside (box : Box) (sz : Z * Z) : Prop :=
  let '(l, t, r, b) := box in
  0 <= l /\ l < r /\ r <= fst sz /\ 0 <= t /\ t < b /\ b <= snd sz.

(** The box of width [w] and height [h] centred in an image of size [sz]. *)
Definition centered_box (sz : Z * Z) (w h : Z) : Box :=
  ((fst sz - w) / 2, (snd sz - h) / 2, (fst sz - w) / 2 + w, (snd sz - h) / 2 + h).

(** The overlays pasted on a frame, the first pasted first. *)
Fixpoint pasted (frame : Image) : list Image :=
  match frame with
  | Paste base overlay _ => (pasted base ++ [overlay])%list
  | _ => []
  end.

(** The assets of [paths] that load, as prepared canvases, in order. *)
Definition usable (cfg : Config) (open : Path -> py Image) (paths : list Path) : list Image :=
  flat_map (fun p => match try_load cfg open p with
                     | inr img => [img]
                     | inl _ => []
                     end) paths.

(** The assets of [paths] that do not load, in order. *)
Definition failed (cfg : Config) (open : Path -> py Image) (paths : list Path) : list Path :=
  filter (fun p => match try_load cfg open p with
                   | inr _ => false
                   | inl _ => true
                   end) paths.

(** The visuals that remain after loading: from the scene images when there
    are any, else from the background clips. *)
Definition usable_visuals (w : World) (cfg : Config) (scene_images : list Path)
    (background_clips : option (list Path)) : list Image :=
  match scene_images with
  | _ :: _ => usable cfg (image_open w) scene_images
  | [] =>
      match background_clips with
      | Some clips => usable cfg (grab_frame w) clips
      | None => []
      end
  end.


(** The timing of one frame of the render loop: its scene and, when it
    blends, [(next_idx, alpha, next_progress)]. *)
Definition frame_fade (cfg : Config) (n_scenes : Z) (dur_per_scene : Q) (frame_idx : Z)
    : py (Z * option (Z * Q * Q)) :=
  t <- fdiv (inject_Z frame_idx) (inject_Z (VIDEO_FPS cfg)) ;;
  clock <- scene_clock n_scenes dur_per_scene t ;;
  let '(scene_idx, scene_start, _) := clock in
  plan <- crossfade_plan n_scenes dur_per_scene scene_idx scene_start t ;;
  ret (scene_idx, plan).

(** The scenes that have a blended frame, one entry per such frame. *)
Definition fading_scenes (cfg : Config) (n_scenes : Z) (target_dur : Q) : list Z :=
  flat_map (fun frame_idx =>
              match (dur_per_scene <- fdiv target_dur (inject_Z n_scenes) ;;
                     frame_fade cfg n_scenes dur_per_scene frame_idx) with
              | inr (scene_idx, Some _) => [scene_idx]
              | _ => []
              end)
           (range (total_frames cfg target_dur)).

(** The number of crossfade windows of a render: the scenes that blend into
    their successor on at least one frame. *)
Definition crossfade_windows (cfg : Config) (n_scenes : Z) (target_dur : Q) : nat :=
  List.length (nodup Z.eq_dec (fading_scenes cfg n_scenes target_dur)).

(** The number of frames the encoder receives from a loop over [total]
    frame indices when it reads [reads] of them. *)
Definition frames_written (total : Z) (reads : option nat) : nat :=
  match reads with
  | None => Z.to_nat total
  | Some k => Nat.min k (Z.to_nat total)
  end.

(** ** The scalar arithmetic on IEEE binary64 numbers *)

Module Binary64.

(** [float(z)]. *)
Definition of_int (z : Z) : float :=
  if z <? 0 then PrimFloat.opp (PrimFloat.of_uint63 (Uint63.of_Z (- z)))
  else PrimFloat.of_uint63 (Uint63.of_Z z).

(** [int(x)]: truncation toward zero; nothing for an infinity or a NaN,
    where Python raises. *)
Definition int (x : float) : option Z :=
  match Prim2SF x with
  | S754_zero _ => Some 0
  | S754_finite sign m e =>
      let magnitude := if 0 <=? e then Z.shiftl (Z.pos m) e
                       else Z.shiftr (Z.pos m) (- e) in
      Some (if sign then - magnitude else magnitude)
  | S754_infinity _ => None
  | S754_nan => None
  end.

Definition pymin (a b : float) : float := if PrimFloat.ltb b a then b else a.

Definition pymax (a b : float) : float := if PrimFloat.ltb a b then b else a.

Definition _smoothstep (t : float) : float :=
  let t := pymax 0 (pymin 1 t) in
  (t * t * (3 - 2 * t))%float.

(** [target_dur] for a narration of [ms] milliseconds. *)
Definition target_duration (cfg : Config) (ms : Z) : float :=
  pymin (of_int ms / 1000)%float (of_int (MAX_DURATION cfg)).

Definition total_frames (cfg : Config) (target_dur : float) : option Z :=
  int (target_dur * of_int (VIDEO_FPS cfg))%float.

(** The crop size [(cw, ch)] of [zoom_in] for a smoothed progress [t]. *)
Definition zoom_in_size (iw ih vw : Z) (t : float) : option Z * option Z :=
  let scale := (1 - t * (1 - of_int vw / of_int iw))%float in
  (int (of_int iw * scale)%float, int (of_int ih * scale)%float).

End Binary64.


(** ** Further observations *)

(** The overlays pasted on a frame with their positions, the first pasted
    first. *)
Fixpoint pastes (frame : Image) : list (Image * (Z * Z)) :=
  match frame with
  | Paste base overlay pos => (pastes base ++ [(overlay, pos)])%list
  | _ => []
  end.

(** An overlay of size [sz] pasted at [pos] covers no pixel outside a frame
    of size [frame_size]. *)
Definition paste_inside (sz pos frame_size : Z * Z) : Prop :=
  0 <= fst pos /\ fst pos + fst sz <= fst frame_size /\
  0 <= snd pos /\ snd pos + snd sz <= snd frame_size.


(** ** Text

    A [string] is a sequence of characters with code points below 256. *)

(** [c.isspace()]. *)
Definition is_space (c : Ascii.ascii) : bool :=
  let n := Ascii.nat_of_ascii c in
  ((9 <=? n) && (n <=? 13) || (28 <=? n) && (n <=? 32) || (n =? 133) || (n =? 160))%nat.

(** [s.lstrip()], [s.rstrip()], [s.strip()]. *)
Fixpoint lstrip (s : string) : string :=
  match s with
  | EmptyString => EmptyString
  | String c rest => if is_space c then lstrip rest else s
  end.

Fixpoint rstrip (s : string) : string :=
  match s with
  | EmptyString => EmptyString
  | String c rest =>
      match rstrip rest with
      | EmptyString => if is_space c then EmptyString else String c EmptyString
      | kept => String c kept
      end
  end.

Definition strip (s : string) : string := rstrip (lstrip s).

(** [s.split()]: the maximal runs of characters that are not whitespace.
    [word] is the run read so far. *)
Fixpoint split_from (s : string) (word : string) : list string :=
  match s with
  | EmptyString => if String.eqb word "" then [] else [word]
  | String c rest =>
      if is_space c then
        if String.eqb word "" then split_from rest ""
        else word :: split_from rest ""
      else split_from rest (String.append word (String c EmptyString))
  end.

Definition split (s : string) : list string := split_from s "".

(** ** The word wrap of [_render_caption]

    [getbbox_width s] is [bbox[2] - bbox[0]] for [bbox = font.getbbox(s)]. *)

(** One pass of the loop over the words: [(lines, cur)]. *)
Definition wrap_step (getbbox_width : string -> Z) (max_w : Z)
    (state : list string * string) (word : string) : list string * string :=
  let '(lines, cur) := state in
  let test := strip (String.append cur (String.append " " word)) in
  if (max_w <? getbbox_width test) && negb (String.eqb cur "")
  then ((lines ++ [cur])%list, word)
  else (lines, test).

(** The lines of a caption text. *)
Definition wrap_text (getbbox_width : string -> Z) (max_w : Z) (text : string)
    : list string :=
  let '(lines, cur) := fold_left (wrap_step getbbox_width max_w) (split text) ([], "") in
  if negb (String.eqb cur "") then (lines ++ [cur])%list else lines.

(** A font of size [sz] whose metrics are [getbbox_width], as
    [_render_caption] uses it under configuration [cfg]. *)
Definition metric_font (cfg : Config) (sz : Z) (getbbox_width : string -> Z) : Font :=
  {| font_size := sz;
     wrapped_lines := fun text =>
       Z.of_nat (List.length (wrap_text getbbox_width (VIDEO_WIDTH cfg - 100) text)) |}.

(** No character of [s] is whitespace. *)
Fixpoint no_space (s : string) : bool :=
  match s with
  | EmptyString => true
  | String c rest => negb (is_space c) && no_space rest
  end.

(** A word as [split] yields them: not empty, without whitespace. *)
Definition is_word (s : string) : Prop := s <> "" /\ no_space s = true.

(** A line fits: it is a single word, or its width is within the limit. *)
Definition line_fits (getbbox_width : string -> Z) (max_w : Z) (g : list string) : Prop :=
  List.length g = 1%nat \/ getbbox_width (String.concat " " g) <= max_w.

(** ** pipeline/caption_generator.py *)

From Stdlib Require Import DecimalString.

(** [x // y] and [x % y] on floats: the floor of the quotient, and the
    remainder that goes with it. *)
Definition floordiv (x y : Q) : Q := inject_Z (Qfloor (x / y)).

Definition pymod (x y : Q) : Q := (x - y * inject_Z (Qfloor (x / y)))%Q.

(** [str(z)] for an integer. *)
Definition decimal (z : Z) : string :=
  String.append (if z <? 0 then "-" else "")
                (NilEmpty.string_of_uint (N.to_uint (Z.to_N (Z.abs z)))).

(** [f"{z:0{width}d}"]: the decimal digits, with zeros after the sign up to
    [width] characters. *)
Definition format_d (width : nat) (z : Z) : string :=
  let sign := if z <? 0 then "-" else "" in
  let digits := NilEmpty.string_of_uint (N.to_uint (Z.to_N (Z.abs z))) in
  String.append sign
    (String.append
       (String.concat "" (repeat "0" (width - String.length sign - String.length digits)))
       digits).

(** The four numbers [_format_timestamp] prints: hours, minutes, seconds,
    milliseconds. *)
Definition timestamp_fields (seconds : Q) : Z * Z * Z * Z :=
  let hours := int (floordiv seconds 3600) in
  let minutes := int (floordiv (pymod seconds 3600) 60) in
  let secs := int (pymod seconds 60) in
  let millis := int (pymod seconds 1 * 1000) in
  (hours, minutes, secs, millis).

Definition _format_timestamp (seconds : Q) : string :=
  let '(hours, minutes, secs, millis) := timestamp_fields seconds in
  String.concat ""
    [ format_d 2 hours; ":"; format_d 2 minutes; ":"; format_d 2 secs; ",";
      format_d 3 millis ].

(** A word of the transcription, and a segment of it; a segment may lack its
    ["words"] key. *)
Record Word : Type := {
  word_start : Q;
  word_end : Q;
  word_text : string
}.

Record Segment : Type := {
  segment_words : option (list Word)
}.

Record SrtEntry : Type := {
  entry_idx : Z;
  entry_start : Q;
  entry_end : Q;
  entry_text : string
}.

(** [range(0, stop, step)]. *)
Definition range_step (stop step : nat) : list nat :=
  map (fun k => (k * step)%nat) (seq 0 ((stop + step - 1) / step)).

(** [words[i : i + chunk_size]] for [i] in [range(0, len(words), chunk_size)]. *)
Definition chunks (chunk_size : nat) (words : list Word) : list (list Word) :=
  map (fun i => firstn chunk_size (skipn i words))
      (range_step (List.length words) chunk_size).

(** The entry of a chunk that is not empty. *)
Definition chunk_entry (idx : Z) (first : Word) (chunk : list Word) : SrtEntry :=
  {| entry_idx := idx;
     entry_start := word_start first;
     entry_end := word_end (last chunk first);
     entry_text := String.concat " " (map (fun w => strip (word_text w)) chunk) |}.

(** One pass of the inner loop of [generate_captions]: [(srt_entries, idx)]. *)
Definition caption_step (state : list SrtEntry * Z) (chunk : list Word)
    : list SrtEntry * Z :=
  let '(entries, idx) := state in
  match chunk with
  | [] => state
  | first :: _ => ((entries ++ [chunk_entry idx first chunk])%list, idx + 1)
  end.

(** The entries [generate_captions] builds from the transcription's segments
    ([None]: the result has no ["segments"] key). *)
Definition caption_entries (segments : option (list Segment)) : list SrtEntry :=
  let chunk_size := 3%nat in
  fst (fold_left
         (fun state segment =>
            let words := match segment_words segment with
                         | Some ws => ws
                         | None => []
                         end in
            fold_left caption_step (chunks chunk_size words) state)
         (match segments with Some segs => segs | None => [] end)
         ([], 1)).

Definition newline : string := String (Ascii.ascii_of_nat 10) "".

(** The text of one entry, and the text [generate_captions] writes. *)
Definition entry_srt (e : SrtEntry) : string :=
  String.concat ""
    [ decimal (entry_idx e); newline;
      _format_timestamp (entry_start e); " --> "; _format_timestamp (entry_end e); newline;
      entry_text e; newline ].

Definition generate_captions (segments : option (list Segment)) : string :=
  String.concat newline (map entry_srt (caption_entries segments)).


(** ** [_parse_srt] *)

(** An item of [pysrt]: start and end as [ordinal] milliseconds, and text. *)
Record SubRipItem : Type := {
  item_start : Z;
  item_end : Z;
  item_text : string
}.

(** [s.replace("\n", " ")]. *)
Fixpoint replace_newlines (s : string) : string :=
  match s with
  | EmptyString => EmptyString
  | String c rest =>
      String (if Ascii.eqb c (Ascii.ascii_of_nat 10) then Ascii.Space else c)
             (replace_newlines rest)
  end.

Definition _parse_srt (subs : list SubRipItem) : list Cue :=
  map (fun s => {| cue_start := (inject_Z (item_start s) / 1000)%Q;
                   cue_end := (inject_Z (item_end s) / 1000)%Q;
                   cue_text := replace_newlines (item_text s) |})
      subs.
(** * Properties *)

(** ** Comparisons and clamping *)

Lemma Qltb_lt (x y : Q) : Qltb x y = true <-> (x < y)%Q.
Proof.
  unfold Qltb. rewrite negb_true_iff, <- not_true_iff_false, Qle_bool_iff.
  split; [apply Qnot_le_lt | apply Qlt_not_le].
Qed.

Lemma Qltb_ge (x y : Q) : Qltb x y = false <-> (y <= x)%Q.
Proof.
  unfold Qltb. rewrite negb_false_iff. apply Qle_bool_iff.
Qed.

Lemma pymin_Qmin (a b : Q) : (pymin a b == Qmin a b)%Q.
Proof.
  unfold pymin. destruct (Qltb b a) eqn:E.
  - apply Qltb_lt in E. symmetry. apply Q.min_r. lra.
  - apply Qltb_ge in E. symmetry. apply Q.min_l. exact E.
Qed.

(** The three ways [max(0.0, min(1.0, t))] comes out. *)
Lemma clamp_cases (t : Q) :
  ((t <= 0)%Q /\ pymax 0 (pymin 1 t) = 0%Q) \/
  ((0 < t)%Q /\ (t < 1)%Q /\ pymax 0 (pymin 1 t) = t) \/
  ((1 <= t)%Q /\ pymax 0 (pymin 1 t) = 1%Q).
Proof.
  unfold pymin. destruct (Qltb t 1) eqn:E1.
  - apply Qltb_lt in E1. unfold pymax. destruct (Qltb 0 t) eqn:E0.
    + apply Qltb_lt in E0. right; left. auto.
    + apply Qltb_ge in E0. left. auto.
  - apply Qltb_ge in E1. right; right. split; [exact E1 | reflexivity].
Qed.

Lemma clamp_range (t : Q) : (0 <= pymax 0 (pymin 1 t) <= 1)%Q.
Proof.
  destruct (clamp_cases t) as [[H E] | [[H0 [H1 E]] | [H E]]]; rewrite E; lra.
Qed.

Lemma clamp_idempotent (t : Q) :
  pymax 0 (pymin 1 (pymax 0 (pymin 1 t))) = pymax 0 (pymin 1 t).
Proof.
  destruct (clamp_cases t) as [[H E] | [[H0 [H1 E]] | [H E]]]; rewrite E;
    try reflexivity.
  destruct (clamp_cases t) as [[H E'] | [[H0' [H1' E']] | [H E']]]; try lra.
  exact E'.
Qed.

(** ** [int] *)



Lemma int_floor (x : Q) : (0 <= x)%Q -> int x = Qfloor x.
Proof.
  destruct x as [a b]. unfold Qle, int, Qfloor. simpl. intro H.
  apply Z.quot_div_nonneg; lia.
Qed.

Lemma int_nonneg (x : Q) : (0 <= x)%Q -> 0 <= int x.
Proof.
  intro H. rewrite int_floor by exact H.
  change 0 with (Qfloor 0). apply Qfloor_resp_le. exact H.
Qed.


(** ** Smoothstep *)

Lemma smoothstep_cases (t : Q) :
  ((t <= 0)%Q /\ _smoothstep t = (0 * 0 * (3 - 2 * 0))%Q) \/
  ((0 < t)%Q /\ (t < 1)%Q /\ _smoothstep t = (t * t * (3 - 2 * t))%Q) \/
  ((1 <= t)%Q /\ _smoothstep t = (1 * 1 * (3 - 2 * 1))%Q).
Proof.
  unfold _smoothstep.
  destruct (clamp_cases t) as [[H E] | [[H0 [H1 E]] | [H E]]]; rewrite E; auto.
Qed.

Lemma smoothstep_range (t : Q) : (0 <= _smoothstep t <= 1)%Q.
Proof.
  destruct (smoothstep_cases t) as [[H E] | [[H0 [H1 E]] | [H E]]]; rewrite E.
  - lra.
  - assert (0 <= t * t * (3 - 2 * t))%Q as Hlo.
    { apply Qmult_le_0_compat; [apply Qmult_le_0_compat |]; lra. }
    assert (0 <= (1 - t) * (1 - t) * (1 + 2 * t))%Q as Hhi.
    { apply Qmult_le_0_compat; [apply Qmult_le_0_compat |]; lra. }
    split; lra.
  - lra.
Qed.



(** ** The smoothstep claims *)



Lemma apply_ken_burns_clamped (cfg : Config) (img : Image) (effect : string) (p : Q) :
  _apply_ken_burns cfg img effect p
  = _apply_ken_burns cfg img effect (pymax 0 (pymin 1 p)).
Proof.
  unfold _apply_ken_burns, _smoothstep. rewrite clamp_idempotent. reflexivity.
Qed.

(** C10. [_smoothstep] is defined on every input and clamps it first:
    [_smoothstep t] is [_smoothstep] of [max(0, min(1, t))] and lies in [0,1];
    hence [_apply_ken_burns] at a progress outside [0,1] is
    [_apply_ken_burns] at the nearest endpoint. *)
Theorem smoothstep_clamps_every_input :
  (forall t : Q, _smoothstep t = _smoothstep (pymax 0 (pymin 1 t)) /\
                 (0 <= _smoothstep t <= 1)%Q) /\
  (forall cfg img effect (p : Q),
      ((p <= 0)%Q -> _apply_ken_burns cfg img effect p = _apply_ken_burns cfg img effect 0) /\
      ((1 <= p)%Q -> _apply_ken_burns cfg img effect p = _apply_ken_burns cfg img effect 1)).
Proof.
  split.
  - intro t. split.
    + unfold _smoothstep. rewrite clamp_idempotent. reflexivity.
    + apply smoothstep_range.
  - intros cfg img effect p. split; intro H.
    + rewrite (apply_ken_burns_clamped cfg img effect p).
      destruct (clamp_cases p) as [[_ E] | [[H0 [H1 E]] | [H1 E]]]; try lra;
        rewrite E; reflexivity.
    + rewrite (apply_ken_burns_clamped cfg img effect p).
      destruct (clamp_cases p) as [[H0 E] | [[H0 [H1 E]] | [_ E]]]; try lra;
        rewrite E; reflexivity.
Qed.

Lemma smoothstep_clamps_every_input_witness :
  _apply_ken_burns default_config (Pixels "a" 1350 2400) "pan_right" 7
  = _apply_ken_burns default_config (Pixels "a" 1350 2400) "pan_right" 1
  /\ _apply_ken_burns default_config (Pixels "a" 1350 2400) "pan_right" (-3)
  = _apply_ken_burns default_config (Pixels "a" 1350 2400) "pan_right" 0.
Proof.
  split.
  - apply (proj2 (proj2 smoothstep_clamps_every_input default_config
                         (Pixels "a" 1350 2400) "pan_right" 7%Q)).
    unfold Qle; simpl; lia.
  - apply (proj1 (proj2 smoothstep_clamps_every_input default_config
                         (Pixels "a" 1350 2400) "pan_right" (-3)%Q)).
    unfold Qle; simpl; lia.
Defined.

(** ** Total duration *)

(** C4. The total render duration is the minimum of the narration's duration
    and the configured cap, and never exceeds the cap; a narration of 90
    seconds under a cap of 59 seconds gives exactly 59 seconds. *)
Theorem target_duration_min_of_audio_and_cap :
  (forall w cfg voiceover_path,
      (target_duration w cfg voiceover_path
       == Qmin (_audio_duration w voiceover_path) (inject_Z (MAX_DURATION cfg)))%Q /\
      (target_duration w cfg voiceover_path <= inject_Z (MAX_DURATION cfg))%Q) /\
  (forall reads voiceover_path,
      (_audio_duration (scenario_world 90000 reads) voiceover_path == 90)%Q /\
      MAX_DURATION default_config = 59 /\
      target_duration (scenario_world 90000 reads) default_config voiceover_path = 59%Q).
Proof.
  split.
  - intros w cfg v. unfold target_duration. split.
    + apply pymin_Qmin.
    + rewrite pymin_Qmin. apply Q.le_min_r.
  - intros reads v. repeat split.
Qed.

(** ** Ken Burns geometry *)

Lemma fdiv_ok (a b : Q) : ~ (b == 0)%Q -> fdiv a b = inr (a / b)%Q.
Proof.
  intro H. unfold fdiv. destruct (Qeq_bool b 0) eqn:E.
  - apply Qeq_bool_iff in E. contradiction.
  - reflexivity.
Qed.

Lemma inject_Z_nonzero (n : Z) : n <> 0 -> ~ (inject_Z n == 0)%Q.
Proof.
  intros H E. apply H. unfold Qeq in E. simpl in E. lia.
Qed.

Lemma kb_rect_returns (iw ih vw vh : Z) (effect : string) (t : Q) :
  iw <> 0 -> exists rect, kb_rect iw ih vw vh effect t = inr rect.
Proof.
  intro H. unfold kb_rect.
  rewrite (fdiv_ok (inject_Z vw) (inject_Z iw) (inject_Z_nonzero iw H)).
  repeat match goal with
         | |- context [String.eqb effect ?s] => destruct (String.eqb effect s)
         end; eexists; reflexivity.
Qed.

Lemma kb_clamp_inside (iw ih : Z) (rect : Box) :
  1 <= iw -> 1 <= ih -> box_inside (kb_clamp iw ih rect) (iw, ih).
Proof.
  intros Hw Hh. destruct rect as [[[cx cy] cw] ch].
  unfold kb_clamp, box_inside. simpl. lia.
Qed.

Lemma size_eqb_eq (a b : Z * Z) : size_eqb a b = true <-> a = b.
Proof.
  destruct a as [a1 a2], b as [b1 b2]. unfold size_eqb. simpl.
  rewrite andb_true_iff, !Z.eqb_eq. split.
  - intros [-> ->]. reflexivity.
  - intro E. inversion E. auto.
Qed.

(** What [_apply_ken_burns] returns on a canvas of non-zero width. *)
Lemma apply_ken_burns_returns (cfg : Config) (img : Image) (effect : string) (p : Q) :
  fst (size img) <> 0 ->
  exists rect frame,
    kb_rect (fst (size img)) (snd (size img)) (VIDEO_WIDTH cfg) (VIDEO_HEIGHT cfg)
            effect (_smoothstep p) = inr rect /\
    _apply_ken_burns cfg img effect p = inr frame /\
    crop_of frame = Some (img, kb_clamp (fst (size img)) (snd (size img)) rect) /\
    size frame = (VIDEO_WIDTH cfg, VIDEO_HEIGHT cfg).
Proof.
  intro H. unfold _apply_ken_burns.
  destruct (size img) as [iw ih] eqn:Esz. simpl in H. simpl fst. simpl snd.
  destruct (kb_rect_returns iw ih (VIDEO_WIDTH cfg) (VIDEO_HEIGHT cfg) effect
              (_smoothstep p) H) as [rect Hrect].
  rewrite Hrect. cbn [bind Monad_either ret].
  exists rect.
  destruct (size_eqb (size (Crop img (kb_clamp iw ih rect)))
              (VIDEO_WIDTH cfg, VIDEO_HEIGHT cfg)) eqn:E; cbn [negb].
  - exists (Crop img (kb_clamp iw ih rect)). repeat split.
    apply size_eqb_eq. exact E.
  - exists (Resize (Crop img (kb_clamp iw ih rect)) (VIDEO_WIDTH cfg, VIDEO_HEIGHT cfg)).
    repeat split.
Qed.

(** C2. On a canvas of positive width and height, for every effect kind (the
    eight of [KB_EFFECTS], and any other name, which gets the centre crop) and
    every progress value (in [0,1] or not), [_apply_ken_burns] returns a frame
    cropped from the canvas by a box that lies within the canvas bounds, and
    the frame has exactly the size [VIDEO_WIDTH] x [VIDEO_HEIGHT]. *)
Theorem ken_burns_crop_inside_canvas (cfg : Config) (img : Image) (effect : string) (p : Q) :
  1 <= fst (size img) -> 1 <= snd (size img) ->
  exists frame box,
    _apply_ken_burns cfg img effect p = inr frame /\
    crop_of frame = Some (img, box) /\
    box_inside box (size img) /\
    size frame = (VIDEO_WIDTH cfg, VIDEO_HEIGHT cfg).
Proof.
  intros Hw Hh.
  destruct (apply_ken_burns_returns cfg img effect p) as (rect & frame & _ & Hf & Hc & Hs);
    [lia |].
  exists frame, (kb_clamp (fst (size img)) (snd (size img)) rect).
  repeat split; try assumption.
  destruct (size img) as [iw ih]. apply kb_clamp_inside; assumption.
Qed.

(** The oversized canvas of a configuration with a positive viewport has
    positive width and height. *)
Lemma kb_canvas_positive (cfg : Config) :
  1 <= VIDEO_WIDTH cfg -> 1 <= VIDEO_HEIGHT cfg ->
  1 <= fst (kb_canvas_size cfg) /\ 1 <= snd (kb_canvas_size cfg).
Proof.
  intros Hw Hh. unfold kb_canvas_size, int, KB_SCALE. simpl.
  split; apply Z.quot_le_lower_bound; lia.
Qed.

Lemma ken_burns_crop_inside_canvas_witness :
  exists frame box,
    _apply_ken_burns default_config (Pixels "scene0" 1350 2400) "zoom_in_pan_right" 0.5
    = inr frame /\
    crop_of frame = Some (Pixels "scene0" 1350 2400, box) /\
    box_inside box (1350, 2400) /\
    size frame = (1080, 1920).
Proof.
  apply (ken_burns_crop_inside_canvas default_config (Pixels "scene0" 1350 2400)
           "zoom_in_pan_right" 0.5); simpl; lia.
Defined.

Example kb_zoom_in_pan_right_half :
  _apply_ken_burns default_config (Pixels "scene0" 1350 2400) "zoom_in_pan_right" 0.5
  = inr (Resize (Crop (Pixels "scene0" 1350 2400) (40, 72, 1309, 2328)) (1080, 1920)).
Proof. vm_compute. reflexivity. Qed.






Lemma kb_clamp_centered (iw ih w h : Z) :
  1 <= w <= iw -> 1 <= h <= ih ->
  kb_clamp iw ih ((iw - w) / 2, (ih - h) / 2, w, h) = centered_box (iw, ih) w h.
Proof.
  intros Hw Hh. unfold kb_clamp, centered_box. simpl.
  assert (0 <= (iw - w) / 2 <= iw - w) as Hx
    by (split; [apply Z.div_pos | apply Z.div_le_upper_bound]; lia).
  assert (0 <= (ih - h) / 2 <= ih - h) as Hy
    by (split; [apply Z.div_pos | apply Z.div_le_upper_bound]; lia).
  rewrite (Z.min_l w iw), (Z.max_r 1 w), (Z.min_l h ih), (Z.max_r 1 h) by lia.
  rewrite (Z.min_l _ (iw - w)), (Z.min_l _ (ih - h)) by lia.
  rewrite !Z.max_r by lia. reflexivity.
Qed.



(** The oversized canvas of a viewport whose sides are multiples of 4 (such
    as 1080 x 1920) has the viewport's aspect ratio. *)
Lemma kb_canvas_keeps_aspect (cfg : Config) :
  (4 | VIDEO_WIDTH cfg) -> (4 | VIDEO_HEIGHT cfg) ->
  snd (kb_canvas_size cfg) * VIDEO_WIDTH cfg = VIDEO_HEIGHT cfg * fst (kb_canvas_size cfg).
Proof.
  intros [a Ha] [b Hb]. unfold kb_canvas_size, int, KB_SCALE. simpl.
  rewrite Ha, Hb.
  replace (a * 4 * 125) with (5 * a * 100) by lia.
  replace (b * 4 * 125) with (5 * b * 100) by lia.
  rewrite !Z.quot_mul by lia. lia.
Qed.

Example kb_zoom_in_start :
  _apply_ken_burns default_config (Pixels "a" 1350 2400) "zoom_in" 0
  = inr (Resize (Crop (Pixels "a" 1350 2400) (0, 0, 1350, 2400)) (1080, 1920)).
Proof. reflexivity. Qed.

Example kb_zoom_in_end :
  _apply_ken_burns default_config (Pixels "a" 1350 2400) "zoom_in" 1
  = inr (Crop (Pixels "a" 1350 2400) (135, 240, 1215, 2160)).
Proof. reflexivity. Qed.

Example kb_zoom_out_quarter :
  _apply_ken_burns default_config (Pixels "a" 1350 2400) "zoom_out" 0.25
  = inr (Resize (Crop (Pixels "a" 1350 2400) (114, 202, 1236, 2197)) (1080, 1920)).
Proof. vm_compute. reflexivity. Qed.

(** ** Caption overlay *)

Lemma cue_active_iff (t : Q) (c : Cue) :
  cue_active t c = true <-> (cue_start c <= t)%Q /\ (t < cue_end c)%Q.
Proof.
  unfold cue_active. rewrite andb_true_iff, Qle_bool_iff, Qltb_lt. reflexivity.
Qed.

Lemma pasted_fold_paste (cfg : Config) (font : Font) (cues : list Cue) :
  forall frame : Image,
    pasted (fold_left (paste_caption cfg font) cues frame)
    = (pasted frame ++ map (fun c => _render_caption cfg (cue_text c) font) cues)%list.
Proof.
  induction cues as [| c cues IH]; intro frame; simpl.
  - rewrite app_nil_r. reflexivity.
  - rewrite IH. simpl. rewrite <- app_assoc. reflexivity.
Qed.

Lemma pasted_composite_caption (cfg : Config) (base : Image) (captions : list Cue)
    (font : Font) (t : Q) :
  pasted (_composite_caption cfg base captions font t)
  = (pasted base
     ++ map (fun c => _render_caption cfg (cue_text c) font)
            (filter (cue_active t) captions))%list.
Proof.
  unfold _composite_caption.
  destruct (filter (cue_active t) captions) as [| c active] eqn:E.
  - simpl. rewrite app_nil_r. reflexivity.
  - apply pasted_fold_paste.
Qed.

(** C7. For every cue list and frame time [t], the overlays
    [_composite_caption] pastes on the frame are those of the cues with
    [start <= t < end], each of them and no other, in the order of the list;
    so two cues whose windows both contain [t] are both on the frame. *)
Theorem caption_rendered_iff_active (cfg : Config) (base : Image) (captions : list Cue)
    (font : Font) (t : Q) :
  exists active : list Cue,
    pasted (_composite_caption cfg base captions font t)
    = (pasted base ++ map (fun c => _render_caption cfg (cue_text c) font) active)%list /\
    (forall c, In c active <-> In c captions /\ (cue_start c <= t)%Q /\ (t < cue_end c)%Q) /\
    (forall c1 c2,
        In c1 captions -> In c2 captions ->
        (cue_start c1 <= t)%Q /\ (t < cue_end c1)%Q ->
        (cue_start c2 <= t)%Q /\ (t < cue_end c2)%Q ->
        In (_render_caption cfg (cue_text c1) font)
           (pasted (_composite_caption cfg base captions font t)) /\
        In (_render_caption cfg (cue_text c2) font)
           (pasted (_composite_caption cfg base captions font t))).
Proof.
  exists (filter (cue_active t) captions).
  assert (forall c, In c (filter (cue_active t) captions)
                    <-> In c captions /\ (cue_start c <= t)%Q /\ (t < cue_end c)%Q) as Hiff.
  { intro c. rewrite filter_In, cue_active_iff. reflexivity. }
  split; [apply pasted_composite_caption | split; [exact Hiff |]].
  intros c1 c2 H1 H2 A1 A2. rewrite pasted_composite_caption.
  split; apply in_or_app; right;
    apply (in_map (fun c => _render_caption cfg (cue_text c) font));
    apply Hiff; auto.
Qed.

Example overlapping_cues_both_render :
  pasted (_composite_caption default_config (Pixels "frame" 1080 1920)
            [ {| cue_start := 0; cue_end := 2; cue_text := "one" |};
              {| cue_start := 1; cue_end := 3; cue_text := "two" |};
              {| cue_start := 2; cue_end := 4; cue_text := "three" |} ]
            {| font_size := 58; wrapped_lines := fun _ => 1 |} 2)
  = [ Layer "two" (1080, 127); Layer "three" (1080, 127) ].
Proof. reflexivity. Qed.

(** ** Audio mixer *)

(** C8. Without a background-music asset (none given, or the file is missing)
    [_mix_audio] returns the narration file; when the mixing run returns an
    error code it returns the narration file too, and [build_video] then goes
    on exactly as it does without music. [_mix_audio] raises nothing. *)
Theorem mix_audio_falls_back_to_voiceover :
  (forall w voiceover dur, _mix_audio w voiceover None dur = voiceover) /\
  (forall w voiceover music dur,
      file_exists w music = false ->
      _mix_audio w voiceover (Some music) dur = voiceover) /\
  (forall w voiceover music dur,
      mixer_returncode w voiceover music dur <> 0 ->
      _mix_audio w voiceover (Some music) dur = voiceover) /\
  (forall w cfg scene_images voiceover srt output music clips language,
      mixer_returncode w voiceover music (target_duration w cfg voiceover) <> 0 ->
      build_video w cfg scene_images voiceover srt output (Some music) clips language
      = build_video w cfg scene_images voiceover srt output None clips language).
Proof.
  assert (forall w voiceover music dur,
             mixer_returncode w voiceover music dur <> 0 ->
             _mix_audio w voiceover (Some music) dur = voiceover) as Hfail.
  { intros w v m dur H. unfold _mix_audio.
    destruct (file_exists w m); [| reflexivity]. simpl.
    apply Z.eqb_neq in H. rewrite H. reflexivity. }
  split; [reflexivity | split; [| split; [exact Hfail |]]].
  { intros w v m dur H. unfold _mix_audio. rewrite H. reflexivity. }
  intros w cfg imgs v srt out m clips lang H.
  unfold build_video. rewrite (Hfail w v m _ H). reflexivity.
Qed.

Lemma mix_audio_falls_back_to_voiceover_witness :
  _mix_audio (scenario_world 10000 None) ["out"; "voice.mp3"]
             (Some ["assets"; "music"; "bg.mp3"]) 10
  = ["out"; "voice.mp3"].
Proof.
  apply (proj1 (proj2 (proj2 mix_audio_falls_back_to_voiceover))).
  simpl. discriminate.
Defined.

(** ** Visual preparation *)

Lemma fold_load_one (cfg : Config) (open : Path -> py Image) (warning : string)
    (paths : list Path) :
  forall imgs out,
    fold_left (load_one cfg open warning) paths (imgs, out)
    = ((imgs ++ usable cfg open paths)%list,
       (out ++ map (fun p => String.append warning (basename p))
                   (failed cfg open paths))%list).
Proof.
  induction paths as [| p paths IH]; intros imgs out; simpl.
  - rewrite !app_nil_r. reflexivity.
  - destruct (try_load cfg open p) as [e | img]; rewrite IH; simpl;
      rewrite <- app_assoc; reflexivity.
Qed.

Lemma prepare_visuals_outcome (w : World) (cfg : Config) (scene_images : list Path)
    (background_clips : option (list Path)) :
  match usable_visuals w cfg scene_images background_clips with
  | [] => exists msg, prepare_visuals w cfg scene_images background_clips
                      = inl (ValueError msg)
  | _ :: _ => exists out, prepare_visuals w cfg scene_images background_clips
                          = inr (usable_visuals w cfg scene_images background_clips, out)
  end.
Proof.
  unfold prepare_visuals, usable_visuals.
  destruct scene_images as [| p ps].
  - destruct background_clips as [[| c cs] |].
    + simpl. eexists; reflexivity.
    + unfold _extract_clip_frames_for_kb. rewrite fold_load_one.
      cbn [bind Monad_either ret fst app].
      destruct (usable cfg (grab_frame w) (c :: cs)); eexists; reflexivity.
    + simpl. eexists; reflexivity.
  - unfold _load_images_for_kb. rewrite fold_load_one.
    cbn [bind Monad_either ret fst app].
    destruct (usable cfg (image_open w) (p :: ps)); eexists; reflexivity.
Qed.

(** C9. The loaders raise nothing: an asset that fails to load or extract adds
    one warning line and no image, every other asset adds its image. The
    visual preparation of [build_video] raises if and only if no usable
    visual remains (which includes that no image and no clip was given);
    otherwise it returns the usable visuals. *)
Theorem asset_failures_skipped_fatal_iff_none_usable (w : World) (cfg : Config) :
  (forall paths,
      _load_images_for_kb w cfg paths
      = (usable cfg (image_open w) paths,
         map (fun p => String.append "Skipping " (basename p))
             (failed cfg (image_open w) paths))) /\
  (forall clip_paths,
      _extract_clip_frames_for_kb w cfg clip_paths
      = (usable cfg (grab_frame w) clip_paths,
         map (fun p => String.append "Frame extraction failed for " (basename p))
             (failed cfg (grab_frame w) clip_paths))) /\
  (forall scene_images background_clips,
      ((exists e, prepare_visuals w cfg scene_images background_clips = inl e)
       <-> usable_visuals w cfg scene_images background_clips = []) /\
      ((exists out, prepare_visuals w cfg scene_images background_clips
                    = inr (usable_visuals w cfg scene_images background_clips, out))
       <-> usable_visuals w cfg scene_images background_clips <> []) /\
      usable_visuals w cfg [] None = []).
Proof.
  split; [| split].
  - intro paths. unfold _load_images_for_kb. rewrite fold_load_one. reflexivity.
  - intro paths. unfold _extract_clip_frames_for_kb. rewrite fold_load_one. reflexivity.
  - intros imgs clips.
    pose proof (prepare_visuals_outcome w cfg imgs clips) as H.
    destruct (usable_visuals w cfg imgs clips) as [| v vs] eqn:E.
    + destruct H as [msg H]. split; [| split].
      * split; [reflexivity | intros _; eexists; exact H].
      * split; [intros [out Hout]; rewrite H in Hout; discriminate
               | intro Hne; contradiction].
      * reflexivity.
    + destruct H as [out H]. split; [| split].
      * split; [intros [e He]; rewrite H in He; discriminate | discriminate].
      * split; [discriminate | intros _; exists out; exact H].
      * reflexivity.
Qed.

Example one_broken_image_is_skipped :
  _load_images_for_kb (scenario_world 10000 None) default_config
    [ ["scenes"; "a.png"]; ["scenes"; "broken.png"]; ["scenes"; "c.png"] ]
  = ( [ Crop (Resize (Pixels "a.png" 1024 1024) (2400, 2400)) (525, 0, 1875, 2400);
        Crop (Resize (Pixels "c.png" 1024 1024) (2400, 2400)) (525, 0, 1875, 2400) ],
      [ "Skipping broken.png" ] ).
Proof. vm_compute. reflexivity. Qed.

Example only_broken_images_is_fatal :
  prepare_visuals (scenario_world 10000 None) default_config
    [ ["scenes"; "broken.png"] ] (Some [ ["clips"; "a.mp4"] ])
  = inl (ValueError "Failed to prepare any visual frames").
Proof. vm_compute. reflexivity. Qed.

(** ** Timeline *)

Lemma int_ge_1 (x : Q) : 1 <= int x -> (1 <= x)%Q.
Proof.
  intro H. destruct (Qlt_le_dec x 0) as [Hneg | Hpos].
  - exfalso. destruct x as [a b]. unfold int, Qlt in *. simpl in *.
    assert (a ÷ Z.pos b <= 0); [| lia].
    rewrite <- (Z.opp_involutive a), Z.quot_opp_l by lia.
    assert (0 <= (- a) ÷ Z.pos b) by (apply Z.quot_pos; lia). lia.
  - pose proof (Qfloor_le x) as Hf. rewrite <- int_floor in Hf by exact Hpos.
    apply Qle_trans with (inject_Z (int x)); [| exact Hf].
    change 1%Q with (inject_Z 1). rewrite <- Zle_Qle. exact H.
Qed.

Lemma range_length (n : Z) : List.length (range n) = Z.to_nat n.
Proof. unfold range. rewrite length_map, length_seq. reflexivity. Qed.

Lemma range_In (n i : Z) : In i (range n) <-> 0 <= i < n.
Proof.
  unfold range. rewrite in_map_iff. split.
  - intros [k [<- Hk]]. apply in_seq in Hk. lia.
  - intro H. exists (Z.to_nat i). split; [lia | apply in_seq; lia].
Qed.

Lemma crossfade_duration_nonzero : ~ (CROSSFADE_DURATION == 0)%Q.
Proof. discriminate. Qed.

(** Facts about the numbers of a render in which some frame is rendered:
    the frame rate, the duration and the per-scene duration are non-zero,
    and duration times frame rate is at least one. *)
Lemma rendering_divisors (cfg : Config) (n_scenes : Z) (target_dur : Q) (frame_idx : Z) :
  1 <= n_scenes -> 0 <= frame_idx < total_frames cfg target_dur ->
  (1 <= target_dur * inject_Z (VIDEO_FPS cfg))%Q /\
  ~ (inject_Z (VIDEO_FPS cfg) == 0)%Q /\
  ~ (target_dur == 0)%Q /\
  ~ (inject_Z n_scenes == 0)%Q /\
  ~ (target_dur / inject_Z n_scenes == 0)%Q /\
  ~ (inject_Z (total_frames cfg target_dur) == 0)%Q.
Proof.
  intros Hn Hidx. unfold total_frames in *.
  assert (1 <= target_dur * inject_Z (VIDEO_FPS cfg))%Q as H1 by (apply int_ge_1; lia).
  assert (~ (inject_Z (VIDEO_FPS cfg) == 0)%Q) as Hfps.
  { intro E. rewrite E in H1. lra. }
  assert (~ (target_dur == 0)%Q) as HD.
  { intro E. rewrite E in H1. lra. }
  assert (~ (inject_Z n_scenes == 0)%Q) as Hnz by (apply inject_Z_nonzero; lia).
  repeat split; try assumption.
  - intro E. apply HD.
    setoid_replace target_dur with (target_dur / inject_Z n_scenes * inject_Z n_scenes)%Q
      by (field; exact Hnz).
    rewrite E. ring.
  - apply inject_Z_nonzero. lia.
Qed.

(** The timing of a rendered frame: every division has a non-zero divisor,
    the scene index is in range, and a blend goes to the next scene, which
    exists, with a weight and a progress in [0,1]. *)
Lemma frame_timing (cfg : Config) (n_scenes : Z) (target_dur : Q) (frame_idx : Z) :
  1 <= n_scenes -> 0 <= frame_idx < total_frames cfg target_dur ->
  let dur_per_scene := (target_dur / inject_Z n_scenes)%Q in
  exists t scene_idx scene_start scene_progress plan,
    fdiv (inject_Z frame_idx) (inject_Z (VIDEO_FPS cfg)) = inr t /\
    fdiv (inject_Z frame_idx) (inject_Z (total_frames cfg target_dur))
    = inr (inject_Z frame_idx / inject_Z (total_frames cfg target_dur))%Q /\
    scene_clock n_scenes dur_per_scene t = inr (scene_idx, scene_start, scene_progress) /\
    0 <= scene_idx <= n_scenes - 1 /\
    (0 <= scene_progress <= 1)%Q /\
    crossfade_plan n_scenes dur_per_scene scene_idx scene_start t = inr plan /\
    (forall next_idx alpha next_progress,
        plan = Some (next_idx, alpha, next_progress) ->
        next_idx = scene_idx + 1 /\ next_idx <= n_scenes - 1 /\
        (0 <= alpha <= 1)%Q /\ (0 <= next_progress <= 1)%Q).
Proof.
  intros Hn Hidx dps.
  destruct (rendering_divisors cfg n_scenes target_dur frame_idx Hn Hidx)
    as (H1 & Hfps & HD & Hnz & Hdps & Htot).
  fold dps in Hdps.
  set (fps := inject_Z (VIDEO_FPS cfg)) in *.
  set (t := (inject_Z frame_idx / fps)%Q).
  set (q := (t / dps)%Q).
  set (scene_idx := Z.min (int q) (n_scenes - 1)).
  set (scene_start := (inject_Z scene_idx * dps)%Q).
  assert (0 <= q)%Q as Hq.
  { setoid_replace q with ((inject_Z frame_idx * inject_Z n_scenes) / (target_dur * fps))%Q
      by (unfold q, t, dps; field; auto).
    apply Qle_shift_div_l; [lra |].
    rewrite Qmult_0_l. apply Qmult_le_0_compat.
    - change 0%Q with (inject_Z 0). rewrite <- Zle_Qle. lia.
    - change 0%Q with (inject_Z 0). rewrite <- Zle_Qle. lia. }
  pose proof (int_nonneg q Hq) as Hiq.
  assert (scene_clock n_scenes dps t
          = inr (scene_idx, scene_start,
                 pymax 0 (pymin 1 ((t - scene_start) / dps)))) as Hclock.
  { unfold scene_clock. rewrite fdiv_ok by exact Hdps.
    cbn [bind Monad_either ret]. rewrite fdiv_ok by exact Hdps. reflexivity. }
  assert (exists plan,
             crossfade_plan n_scenes dps scene_idx scene_start t = inr plan /\
             forall next_idx alpha next_progress,
               plan = Some (next_idx, alpha, next_progress) ->
               next_idx = scene_idx + 1 /\ next_idx <= n_scenes - 1 /\
               (0 <= alpha <= 1)%Q /\ (0 <= next_progress <= 1)%Q) as [plan [Hplan Hfade]].
  { unfold crossfade_plan, crossfade_alpha.
    destruct (scene_idx + 1 <? n_scenes) eqn:Enext; cbn [andb].
    - destruct (Qltb (scene_start + dps - t) CROSSFADE_DURATION).
      + rewrite fdiv_ok by exact crossfade_duration_nonzero.
        cbn [bind Monad_either ret]. rewrite fdiv_ok by exact Hdps.
        eexists. split; [reflexivity |].
        intros nx a np E. inversion E; subst. apply Z.ltb_lt in Enext.
        split; [reflexivity | split; [lia | split]].
        * apply smoothstep_range.
        * apply clamp_range.
      + eexists. split; [reflexivity | discriminate].
    - eexists. split; [reflexivity | discriminate]. }
  exists t, scene_idx, scene_start, (pymax 0 (pymin 1 ((t - scene_start) / dps))), plan.
  split; [apply fdiv_ok; exact Hfps |].
  split; [apply fdiv_ok; exact Htot |].
  split; [exact Hclock |].
  split; [unfold scene_idx; lia |].
  split; [apply clamp_range |].
  split; [exact Hplan | exact Hfade].
Qed.

(** ** The render loop *)

Lemma getitem_in_range {A : Type} (l : list A) (i : Z) :
  0 <= i < Z.of_nat (List.length l) -> exists x, getitem l i = inr x /\ In x l.
Proof.
  intro H. unfold getitem.
  assert ((i <? 0) = false) as E by (apply Z.ltb_ge; lia). rewrite E, E.
  destruct (nth_error l (Z.to_nat i)) as [x |] eqn:En.
  - exists x. split; [reflexivity | eapply nth_error_In; exact En].
  - apply nth_error_None in En. lia.
Qed.

Lemma render_frame_returns (cfg : Config) (kb_frames : list Image) (effects : list string)
    (captions : list Cue) (font : Font) (target_dur : Q) (frame_idx : Z) :
  let n_scenes := Z.of_nat (List.length kb_frames) in
  List.length effects = List.length kb_frames ->
  Forall (fun img => fst (size img) <> 0) kb_frames ->
  1 <= n_scenes ->
  0 <= frame_idx < total_frames cfg target_dur ->
  exists frame,
    render_frame cfg kb_frames effects captions font (total_frames cfg target_dur)
                 n_scenes (target_dur / inject_Z n_scenes) frame_idx = inr frame.
Proof.
  intros n Hlen Hsizes Hn Hidx.
  destruct (frame_timing cfg n target_dur frame_idx Hn Hidx)
    as (t & si & ss & sp & plan & Ht & Hpct & Hclock & Hsi & _ & Hplan & Hfade).
  rewrite Forall_forall in Hsizes.
  unfold render_frame. rewrite Ht. cbn [bind Monad_either ret].
  rewrite Hpct. cbn [bind Monad_either ret].
  rewrite Hclock. cbn [bind Monad_either ret].
  destruct (getitem_in_range kb_frames si) as [img [Himg Hin]]; [unfold n in Hsi; lia |].
  destruct (getitem_in_range effects si) as [eff [Heff _]];
    [rewrite Hlen; unfold n in Hsi; lia |].
  rewrite Himg, Heff. cbn [bind Monad_either ret].
  destruct (apply_ken_burns_returns cfg img eff sp (Hsizes img Hin))
    as (_ & frame & _ & Hframe & _).
  rewrite Hframe. cbn [bind Monad_either ret].
  rewrite Hplan. cbn [bind Monad_either ret].
  destruct plan as [[[nx alpha] np] |].
  - destruct (Hfade nx alpha np eq_refl) as (Hnx & Hlt & _).
    destruct (getitem_in_range kb_frames nx) as [img_b [Himg_b Hin_b]];
      [unfold n in *; lia |].
    destruct (getitem_in_range effects nx) as [eff_b [Heff_b _]];
      [rewrite Hlen; unfold n in *; lia |].
    rewrite Himg_b, Heff_b. cbn [bind Monad_either ret].
    destruct (apply_ken_burns_returns cfg img_b eff_b np (Hsizes img_b Hin_b))
      as (_ & frame_b & _ & Hframe_b & _).
    rewrite Hframe_b. cbn [bind Monad_either ret].
    destruct captions; eexists; reflexivity.
  - destruct captions; eexists; reflexivity.
Qed.

Lemma render_loop_writes (body : Z -> py Image) (todo : list Z) :
  (forall i, In i todo -> exists frame, body i = inr frame) ->
  forall (room : option nat) (written : list Image),
  exists frames,
    render_loop body todo room written = inr frames /\
    List.length frames
    = (List.length written
       + match room with
         | None => List.length todo
         | Some k => Nat.min k (List.length todo)
         end)%nat.
Proof.
  induction todo as [| i rest IH]; intros Hbody room written.
  - exists written. split; [reflexivity |]. destruct room as [k |]; simpl; lia.
  - destruct (Hbody i (or_introl eq_refl)) as [frame Hframe].
    assert (forall j, In j rest -> exists f, body j = inr f) as Hrest
      by (intros j Hj; apply Hbody; right; exact Hj).
    cbn [render_loop]. rewrite Hframe. cbn [bind Monad_either ret].
    destruct room as [[| k] |].
    + exists written. split; [reflexivity | simpl; lia].
    + destruct (IH Hrest (Some k) (written ++ [frame])%list) as [frames [Hr Hl]].
      exists frames. split; [exact Hr |]. rewrite Hl, length_app. simpl. lia.
    + destruct (IH Hrest None (written ++ [frame])%list) as [frames [Hr Hl]].
      exists frames. split; [exact Hr |]. rewrite Hl, length_app. simpl. lia.
Qed.

Lemma resize_for_ken_burns_size (cfg : Config) (img out : Image) :
  _resize_for_ken_burns cfg img = inr out -> size out = kb_canvas_size cfg.
Proof.
  unfold _resize_for_ken_burns, kb_canvas_size.
  destruct (fdiv _ _) as [e | ratio]; cbn [bind Monad_either ret]; [discriminate |].
  destruct (size img) as [width height].
  destruct (fdiv (inject_Z width) (inject_Z height)) as [e | img_ratio];
    cbn [bind Monad_either ret]; [discriminate |].
  destruct (Qltb ratio img_ratio);
    destruct (fdiv _ _) as [e | r]; cbn [bind Monad_either ret]; try discriminate;
    intro H; inversion H; subst out; simpl; f_equal; lia.
Qed.

Lemma usable_sizes (cfg : Config) (open : Path -> py Image) (paths : list Path) :
  Forall (fun img => size img = kb_canvas_size cfg) (usable cfg open paths).
Proof.
  apply Forall_forall. intros img Hin. unfold usable in Hin.
  apply in_flat_map in Hin. destruct Hin as [p [_ Hp]].
  destruct (try_load cfg open p) as [e | img'] eqn:E; [contradiction |].
  destruct Hp as [-> | []].
  unfold try_load in E. destruct (open p) as [e | raw]; [discriminate |].
  cbn [bind Monad_either] in E. eapply resize_for_ken_burns_size. exact E.
Qed.

Lemma usable_visuals_sizes (w : World) (cfg : Config) (scene_images : list Path)
    (background_clips : option (list Path)) :
  Forall (fun img => size img = kb_canvas_size cfg)
         (usable_visuals w cfg scene_images background_clips).
Proof.
  unfold usable_visuals. destruct scene_images; [destruct background_clips |];
    try apply usable_sizes. constructor.
Qed.

Lemma kb_canvas_width_positive (cfg : Config) :
  1 <= VIDEO_WIDTH cfg -> 1 <= fst (kb_canvas_size cfg).
Proof.
  intro Hw. unfold kb_canvas_size, int, KB_SCALE. simpl.
  apply Z.quot_le_lower_bound; lia.
Qed.

(** [build_video] returns, and the encoder has received as many frames as
    the loop had indices, or as many as it read before closing its input. *)
Lemma build_video_returns (w : World) (cfg : Config) (scene_images : list Path)
    (voiceover_path : Path) (captions_srt_path : option Path) (output_path : Path)
    (background_music_path : option Path) (background_clips : option (list Path))
    (language : string) :
  find_ffmpeg w <> None ->
  encoder_returncode w = 0 ->
  1 <= VIDEO_WIDTH cfg ->
  usable_visuals w cfg scene_images background_clips <> [] ->
  exists v,
    build_video w cfg scene_images voiceover_path captions_srt_path output_path
                background_music_path background_clips language = inr v /\
    video_duration v = target_duration w cfg voiceover_path /\
    List.length (video_frames v)
    = frames_written (total_frames cfg (target_duration w cfg voiceover_path))
                     (encoder_reads w).
Proof.
  intros Hff Hrc Hvw Husable. unfold build_video, _get_ffmpeg.
  destruct (find_ffmpeg w) as [exe |]; [| contradiction].
  cbn [bind Monad_either ret].
  pose proof (prepare_visuals_outcome w cfg scene_images background_clips) as Hprep.
  pose proof (usable_visuals_sizes w cfg scene_images background_clips) as Hsz.
  destruct (usable_visuals w cfg scene_images background_clips) as [| v0 vs] eqn:Ev;
    [contradiction |].
  destruct Hprep as [out Hprep]. rewrite Hprep. cbn [bind Monad_either ret].
  set (kb_frames := v0 :: vs) in *.
  set (n := Z.of_nat (List.length kb_frames)).
  assert (1 <= n) as Hn by (unfold n, kb_frames; simpl; lia).
  rewrite fdiv_ok by (apply inject_Z_nonzero; lia).
  cbn [bind Monad_either ret].
  set (effects := map _ (seq 0 (List.length kb_frames))).
  set (captions := match captions_srt_path with Some _ => _ | None => _ end).
  set (D := target_duration w cfg voiceover_path).
  destruct (render_loop_writes
              (render_frame cfg kb_frames effects captions (load_font w 58 language)
                            (total_frames cfg D) n (D / inject_Z n))
              (range (total_frames cfg D))) with (room := encoder_reads w) (written := @nil Image)
    as [frames [Hloop Hlen]].
  { intros i Hi. apply range_In in Hi.
    apply render_frame_returns; try assumption.
    - unfold effects. rewrite length_map, length_seq. reflexivity.
    - eapply Forall_impl; [| exact Hsz]. intros img E. cbv beta in E. rewrite E.
      pose proof (kb_canvas_width_positive cfg Hvw). lia. }
  rewrite Hloop. cbn [bind Monad_either ret].
  rewrite Hrc. cbn [Z.eqb negb].
  eexists. split; [reflexivity |]. split; [reflexivity |].
  cbn [video_frames]. rewrite Hlen, range_length. unfold frames_written.
  destruct (encoder_reads w); simpl; lia.
Qed.

(** ** Frame count *)


(** An encoder that closes its input after 120 frames receives 120 of the
    300 frames of scenario A. *)
Example early_close_writes_fewer_frames :
  frames_built (build_video (scenario_world 10000 (Some 120%nat)) default_config
                  (scenario_images 3) ["out"; "voice.mp3"] None ["out"; "final.mp4"]
                  None None "en")
  = Some 120%nat.
Proof. vm_compute. reflexivity. Qed.



(** ** Crossfade *)







Lemma int_unique (x : Q) (i : Z) :
  (inject_Z i <= x)%Q -> (x < inject_Z (i + 1))%Q -> 0 <= i -> int x = i.
Proof.
  intros Hlo Hhi Hi.
  assert (0 <= x)%Q as Hx.
  { apply Qle_trans with (inject_Z i); [| exact Hlo].
    change 0%Q with (inject_Z 0). rewrite <- Zle_Qle. exact Hi. }
  rewrite int_floor by exact Hx.
  assert (i <= Qfloor x).
  { rewrite <- (Qfloor_Z i). apply Qfloor_resp_le. exact Hlo. }
  assert (Qfloor x < i + 1).
  { rewrite Zlt_Qlt. apply Qle_lt_trans with x; [apply Qfloor_le | exact Hhi]. }
  lia.
Qed.






(** Ten scenes over five seconds: a scene lasts 0.5 s, less than the window of
    0.6 s, and the first frame of the first scene is already blended, with
    weight 2/27. *)
Example short_scene_starts_blended :
  exists alpha next_progress,
    frame_fade default_config 10 (5 / 10) 0 = inr (0, Some (1, alpha, next_progress)) /\
    (alpha == 2 # 27)%Q /\ (next_progress == 1 # 5)%Q.
Proof. eexists. eexists. split; [vm_compute; reflexivity | split; reflexivity]. Qed.

(** Scenario A: three scenes over ten seconds give two crossfade windows;
    scenario C: one scene gives none. *)
Example scenario_A_windows :
  crossfade_windows default_config 3 10 = 2%nat /\
  crossfade_windows default_config 1 10 = 0%nat.
Proof. split; vm_compute; reflexivity. Qed.

(** The last frame before the window of scenario A is not blended, the first
    frame in it is, and the frame on the scene boundary belongs to the next
    scene. *)
Example scenario_A_window_edges :
  frame_fade default_config 3 (10 / 3) 82 = inr (0, None) /\
  (exists alpha next_progress,
      frame_fade default_config 3 (10 / 3) 83 = inr (0, Some (1, alpha, next_progress))) /\
  frame_fade default_config 3 (10 / 3) 100 = inr (1, None).
Proof.
  split; [vm_compute; reflexivity |].
  split; [eexists; eexists; vm_compute; reflexivity | vm_compute; reflexivity].
Qed.



(** ** The same numbers in binary64 *)

Example binary64_smoothstep_fixed_points :
  Binary64._smoothstep 0 = 0%float /\ Binary64._smoothstep 1 = 1%float /\
  Binary64._smoothstep 0.5 = 0.5%float.
Proof. repeat split; vm_compute; reflexivity. Qed.

Example binary64_scenario_A_frames :
  Binary64.total_frames default_config (Binary64.target_duration default_config 10000)
  = Some 300.
Proof. vm_compute. reflexivity. Qed.

Example binary64_scenario_B_duration :
  Binary64.target_duration default_config 90000 = 59%float.
Proof. vm_compute. reflexivity. Qed.

(** 10.03 s at 30 frames per second: 300 frames in binary64 too. *)
Example binary64_ten_point_zero_three_seconds :
  Binary64.total_frames default_config (Binary64.target_duration default_config 10030)
  = Some 300.
Proof. vm_compute. reflexivity. Qed.

(** Truncation also shows the rounding of the product: 33.8 s at 30 frames
    per second is 1014 frames in exact arithmetic, and 1013 in binary64, where
    the product comes out just below 1014. *)
Example binary64_frame_count_below_exact :
  Binary64.total_frames default_config (Binary64.target_duration default_config 33800)
  = Some 1013 /\
  total_frames default_config (33800 # 1000) = 1014.
Proof. split; vm_compute; reflexivity. Qed.

Example binary64_zoom_in_endpoints :
  Binary64.zoom_in_size 1350 2400 1080 (Binary64._smoothstep 0) = (Some 1350, Some 2400) /\
  Binary64.zoom_in_size 1350 2400 1080 (Binary64._smoothstep 1) = (Some 1080, Some 1920).
Proof. split; vm_compute; reflexivity. Qed.

(** * Further properties of the video builder *)

(** ** Visual normalizer *)






Example resize_wide_image :
  _resize_for_ken_burns default_config (Pixels "wide.png" 1920 1080)
  = inr (Crop (Resize (Pixels "wide.png" 1920 1080) (4266, 2400)) (1458, 0, 2808, 2400)).
Proof. vm_compute. reflexivity. Qed.

(** X2. With a positive viewport, [_resize_for_ken_burns] raises exactly on an
    image of zero width or zero height, and what it raises is
    [ZeroDivisionError]; the loaders then skip the image with one warning. *)
Theorem resize_for_ken_burns_raises_iff_empty_image (cfg : Config) (img : Image) :
  1 <= VIDEO_WIDTH cfg -> 1 <= VIDEO_HEIGHT cfg ->
  ((fst (size img) = 0 \/ snd (size img) = 0)
   <-> _resize_for_ken_burns cfg img = inl ZeroDivisionError) /\
  ((fst (size img) <> 0 /\ snd (size img) <> 0)
   <-> exists canvas, _resize_for_ken_burns cfg img = inr canvas) /\
  (forall open p warning imgs out,
      open p = inr img ->
      (fst (size img) = 0 \/ snd (size img) = 0) ->
      load_one cfg open warning (imgs, out) p
      = (imgs, (out ++ [String.append warning (basename p)])%list)).
Proof.
  intros Hvw Hvh.
  destruct (kb_canvas_positive cfg Hvw Hvh) as [Htw Hth].
  unfold kb_canvas_size in Htw, Hth. simpl in Htw, Hth.
  assert ((fst (size img) = 0 \/ snd (size img) = 0)
          -> _resize_for_ken_burns cfg img = inl ZeroDivisionError) as Hzero.
  { intro Hz. unfold _resize_for_ken_burns.
    rewrite (fdiv_ok (inject_Z (int (inject_Z (VIDEO_WIDTH cfg) * KB_SCALE))))
      by (apply inject_Z_nonzero; lia).
    cbn [bind Monad_either ret].
    destruct (size img) as [w h]. simpl in Hz.
    destruct (Z.eq_dec h 0) as [-> | Hh]; [reflexivity |].
    destruct Hz as [-> | Hz]; [| contradiction].
    rewrite (fdiv_ok (inject_Z 0)) by (apply inject_Z_nonzero; exact Hh).
    cbn [bind Monad_either ret].
    assert (Qltb (inject_Z (int (inject_Z (VIDEO_WIDTH cfg) * KB_SCALE))
                  / inject_Z (int (inject_Z (VIDEO_HEIGHT cfg) * KB_SCALE)))
                 (inject_Z 0 / inject_Z h) = false) as E.
    { apply Qltb_ge. setoid_replace (inject_Z 0 / inject_Z h)%Q with 0%Q
        by (unfold Qdiv; change (inject_Z 0) with 0%Q; ring).
      apply Qle_shift_div_l.
      - change 0%Q with (inject_Z 0). rewrite <- Zlt_Qlt. lia.
      - rewrite Qmult_0_l. change 0%Q with (inject_Z 0). rewrite <- Zle_Qle. lia. }
    rewrite E. reflexivity. }
  assert ((fst (size img) <> 0 /\ snd (size img) <> 0)
          -> exists canvas, _resize_for_ken_burns cfg img = inr canvas) as Hok.
  { intros [Hw Hh]. unfold _resize_for_ken_burns.
    rewrite (fdiv_ok (inject_Z (int (inject_Z (VIDEO_WIDTH cfg) * KB_SCALE))))
      by (apply inject_Z_nonzero; lia).
    cbn [bind Monad_either ret].
    destruct (size img) as [w h]. simpl in Hw, Hh.
    rewrite (fdiv_ok (inject_Z w)) by (apply inject_Z_nonzero; exact Hh).
    cbn [bind Monad_either ret].
    destruct (Qltb _ _).
    - rewrite fdiv_ok by (apply inject_Z_nonzero; exact Hh). eexists; reflexivity.
    - rewrite fdiv_ok by (apply inject_Z_nonzero; exact Hw). eexists; reflexivity. }
  split; [| split].
  - split; [exact Hzero |]. intro H.
    destruct (Z.eq_dec (fst (size img)) 0) as [E | Hw]; [left; exact E |].
    destruct (Z.eq_dec (snd (size img)) 0) as [E | Hh]; [right; exact E |].
    destruct (Hok (conj Hw Hh)) as [c Hc]. rewrite Hc in H. discriminate.
  - split; [exact Hok |]. intros [c Hc]. split; intro E.
    + rewrite (Hzero (or_introl E)) in Hc. discriminate.
    + rewrite (Hzero (or_intror E)) in Hc. discriminate.
  - intros open p warning imgs out Hopen Hz. unfold load_one, try_load.
    rewrite Hopen. cbn [bind Monad_either]. rewrite (Hzero Hz). reflexivity.
Qed.

Lemma resize_for_ken_burns_raises_iff_empty_image_witness :
  _resize_for_ken_burns default_config (Pixels "empty.png" 640 0) = inl ZeroDivisionError.
Proof.
  apply (proj1 (proj1 (resize_for_ken_burns_raises_iff_empty_image default_config
                         (Pixels "empty.png" 640 0) ltac:(simpl; lia) ltac:(simpl; lia)))).
  right. reflexivity.
Defined.

(** ** Frames *)

Lemma apply_ken_burns_size (cfg : Config) (img : Image) (effect : string) (p : Q)
    (frame : Image) :
  _apply_ken_burns cfg img effect p = inr frame ->
  size frame = (VIDEO_WIDTH cfg, VIDEO_HEIGHT cfg).
Proof.
  unfold _apply_ken_burns. destruct (size img) as [iw ih].
  destruct (kb_rect iw ih (VIDEO_WIDTH cfg) (VIDEO_HEIGHT cfg) effect (_smoothstep p))
    as [e | rect]; cbn [bind Monad_either ret]; [discriminate |].
  destruct (size_eqb (size (Crop img (kb_clamp iw ih rect)))
              (VIDEO_WIDTH cfg, VIDEO_HEIGHT cfg)) eqn:E; cbn [negb];
    intro H; inversion H; subst frame.
  - apply size_eqb_eq. exact E.
  - reflexivity.
Qed.

Lemma fold_paste_size (cfg : Config) (font : Font) (cues : list Cue) :
  forall frame, size (fold_left (paste_caption cfg font) cues frame) = size frame.
Proof.
  induction cues as [| c cues IH]; intro frame; [reflexivity |].
  simpl. rewrite IH. reflexivity.
Qed.

Lemma composite_caption_size (cfg : Config) (base : Image) (captions : list Cue)
    (font : Font) (t : Q) :
  size (_composite_caption cfg base captions font t) = size base.
Proof.
  unfold _composite_caption. destruct (filter (cue_active t) captions); [reflexivity |].
  apply fold_paste_size.
Qed.

Lemma render_frame_size (cfg : Config) (kb_frames : list Image) (effects : list string)
    (captions : list Cue) (font : Font) (total n_scenes : Z) (dur_per_scene : Q)
    (frame_idx : Z) (frame : Image) :
  render_frame cfg kb_frames effects captions font total n_scenes dur_per_scene frame_idx
  = inr frame ->
  size frame = (VIDEO_WIDTH cfg, VIDEO_HEIGHT cfg).
Proof.
  unfold render_frame.
  destruct (fdiv (inject_Z frame_idx) (inject_Z (VIDEO_FPS cfg))) as [e | t];
    cbn [bind Monad_either ret]; [discriminate |].
  destruct (fdiv (inject_Z frame_idx) (inject_Z total)) as [e | pct];
    cbn [bind Monad_either ret]; [discriminate |].
  destruct (scene_clock n_scenes dur_per_scene t) as [e | [[si ss] sp]];
    cbn [bind Monad_either ret]; [discriminate |].
  destruct (getitem kb_frames si) as [e | img]; cbn [bind Monad_either ret]; [discriminate |].
  destruct (getitem effects si) as [e | eff]; cbn [bind Monad_either ret]; [discriminate |].
  destruct (_apply_ken_burns cfg img eff sp) as [e | fa] eqn:Ha;
    cbn [bind Monad_either ret]; [discriminate |].
  apply apply_ken_burns_size in Ha.
  destruct (crossfade_plan n_scenes dur_per_scene si ss t) as [e | plan];
    cbn [bind Monad_either ret]; [discriminate |].
  assert (forall blended : Image,
             size blended = (VIDEO_WIDTH cfg, VIDEO_HEIGHT cfg) ->
             match captions with
             | [] => @inr exn Image blended
             | _ :: _ => @inr exn Image (_composite_caption cfg blended captions font t)
             end = inr frame ->
             size frame = (VIDEO_WIDTH cfg, VIDEO_HEIGHT cfg)) as Hcap.
  { intros blended Hb H. destruct captions; inversion H; subst frame; [exact Hb |].
    rewrite composite_caption_size. exact Hb. }
  destruct plan as [[[nx alpha] np] |].
  - destruct (getitem kb_frames nx) as [e | img_b]; cbn [bind Monad_either ret];
      [discriminate |].
    destruct (getitem effects nx) as [e | eff_b]; cbn [bind Monad_either ret];
      [discriminate |].
    destruct (_apply_ken_burns cfg img_b eff_b np) as [e | fb];
      cbn [bind Monad_either ret]; [discriminate |].
    apply Hcap. exact Ha.
  - cbn [bind Monad_either ret]. apply Hcap. exact Ha.
Qed.

Lemma render_loop_Forall (P : Image -> Prop) (body : Z -> py Image) (todo : list Z) :
  (forall i frame, body i = inr frame -> P frame) ->
  forall room written frames,
    Forall P written ->
    render_loop body todo room written = inr frames ->
    Forall P frames.
Proof.
  intro Hbody. induction todo as [| i rest IH]; intros room written frames Hw H.
  - inversion H; subst. exact Hw.
  - cbn [render_loop] in H. destruct (body i) as [e | frame] eqn:Hf;
      cbn [bind Monad_either ret] in H; [discriminate |].
    assert (Forall P (written ++ [frame])%list) as Hw'.
    { apply Forall_app. split; [exact Hw |]. constructor; [| constructor].
      eapply Hbody. exact Hf. }
    destruct room as [[| k] |].
    + inversion H; subst. exact Hw.
    + eapply IH; eassumption.
    + eapply IH; eassumption.
Qed.

Lemma build_video_frame_sizes (w : World) (cfg : Config) (scene_images : list Path)
    (voiceover_path : Path) (captions_srt_path : option Path) (output_path : Path)
    (background_music_path : option Path) (background_clips : option (list Path))
    (language : string) (v : Video) :
  build_video w cfg scene_images voiceover_path captions_srt_path output_path
              background_music_path background_clips language = inr v ->
  Forall (fun frame => size frame = (VIDEO_WIDTH cfg, VIDEO_HEIGHT cfg)) (video_frames v).
Proof.
  unfold build_video.
  destruct (_get_ffmpeg w) as [e | exe]; cbn [bind Monad_either ret]; [discriminate |].
  destruct (prepare_visuals w cfg scene_images background_clips) as [e | [kb out]];
    cbn [bind Monad_either ret]; [discriminate |].
  destruct (fdiv _ _) as [e | dps]; cbn [bind Monad_either ret]; [discriminate |].
  destruct (render_loop _ _ _ _) as [e | frames] eqn:Hloop;
    cbn [bind Monad_either ret]; [discriminate |].
  destruct (negb (encoder_returncode w =? 0)); [discriminate |].
  intro H. inversion H; subst v. cbn [video_frames].
  eapply render_loop_Forall; [| constructor | exact Hloop].
  intros i frame Hf. eapply render_frame_size. exact Hf.
Qed.

(** X3. Every frame [build_video] sends to the encoder has exactly the size
    [VIDEO_WIDTH] x [VIDEO_HEIGHT], whether it is a plain Ken Burns crop, a
    crossfade of two, or carries captions. *)
Theorem every_written_frame_has_viewport_size (w : World) (cfg : Config)
    (scene_images : list Path) (voiceover_path : Path) (captions_srt_path : option Path)
    (output_path : Path) (background_music_path : option Path)
    (background_clips : option (list Path)) (language : string) :
  find_ffmpeg w <> None ->
  encoder_returncode w = 0 ->
  1 <= VIDEO_WIDTH cfg ->
  usable_visuals w cfg scene_images background_clips <> [] ->
  exists v,
    build_video w cfg scene_images voiceover_path captions_srt_path output_path
                background_music_path background_clips language = inr v /\
    Forall (fun frame => size frame = (VIDEO_WIDTH cfg, VIDEO_HEIGHT cfg)) (video_frames v).
Proof.
  intros Hff Hrc Hvw Hus.
  destruct (build_video_returns w cfg scene_images voiceover_path captions_srt_path
              output_path background_music_path background_clips language Hff Hrc Hvw Hus)
    as [v [Hb _]].
  exists v. split; [exact Hb |]. eapply build_video_frame_sizes. exact Hb.
Qed.

Lemma every_written_frame_has_viewport_size_witness :
  exists v,
    build_video (scenario_world 2000 None) default_config (scenario_images 3)
                ["out"; "voice.mp3"] (Some ["out"; "captions.srt"]) ["out"; "final.mp4"]
                None None "en" = inr v /\
    Forall (fun frame => size frame = (1080, 1920)) (video_frames v).
Proof.
  apply (every_written_frame_has_viewport_size (scenario_world 2000 None) default_config
           (scenario_images 3) ["out"; "voice.mp3"] (Some ["out"; "captions.srt"])
           ["out"; "final.mp4"] None None "en").
  - discriminate.
  - reflexivity.
  - simpl. lia.
  - vm_compute. discriminate.
Defined.

(** ** Scene schedule *)






(** ** Failures of [build_video] *)




(** ** Smoothstep *)



(** ** Pan and zoom motion *)






Lemma crop_viewport_not_resized (cfg : Config) (img : Image) (cx cy : Z) :
  (if negb (size_eqb (size (Crop img (cx, cy, cx + VIDEO_WIDTH cfg, cy + VIDEO_HEIGHT cfg)))
                     (VIDEO_WIDTH cfg, VIDEO_HEIGHT cfg))
   then @inr exn Image
          (Resize (Crop img (cx, cy, cx + VIDEO_WIDTH cfg, cy + VIDEO_HEIGHT cfg))
                  (VIDEO_WIDTH cfg, VIDEO_HEIGHT cfg))
   else inr (Crop img (cx, cy, cx + VIDEO_WIDTH cfg, cy + VIDEO_HEIGHT cfg)))
  = inr (Crop img (cx, cy, cx + VIDEO_WIDTH cfg, cy + VIDEO_HEIGHT cfg)).
Proof.
  assert (size_eqb (size (Crop img (cx, cy, cx + VIDEO_WIDTH cfg, cy + VIDEO_HEIGHT cfg)))
                   (VIDEO_WIDTH cfg, VIDEO_HEIGHT cfg) = true) as E.
  { apply size_eqb_eq. simpl. f_equal; lia. }
  rewrite E. reflexivity.
Qed.






Example pan_right_quarter :
  _apply_ken_burns default_config (Pixels "scene0" 1350 2400) "pan_right" 0.25
  = inr (Crop (Pixels "scene0" 1350 2400) (42, 240, 1122, 2160)).
Proof. vm_compute. reflexivity. Qed.






(** ** Caption placement *)

Lemma pastes_fold_paste (cfg : Config) (font : Font) (cues : list Cue) :
  forall frame : Image,
    pastes (fold_left (paste_caption cfg font) cues frame)
    = (pastes frame
       ++ map (fun c =>
                 (_render_caption cfg (cue_text c) font,
                  (0, Z.max 0 (Z.min (int (inject_Z (VIDEO_HEIGHT cfg) * 0.72)
                                      - snd (size (_render_caption cfg (cue_text c) font)) / 2)
                                     (VIDEO_HEIGHT cfg
                                      - snd (size (_render_caption cfg (cue_text c) font)))))))
              cues)%list.
Proof.
  induction cues as [| c cues IH]; intro frame; simpl.
  - rewrite app_nil_r. reflexivity.
  - rewrite IH. simpl. rewrite <- app_assoc. reflexivity.
Qed.

(** X10. [_composite_caption] leaves the frame's size unchanged and returns
    the frame itself when no cue is active. Each active cue's overlay is as
    wide as the viewport and is pasted at x = 0 and y >= 0; when the overlay
    is not taller than the viewport it lies entirely within a viewport-sized
    frame, and otherwise it is pasted at the top (y = 0). *)
Theorem caption_overlays_stay_inside_the_frame (cfg : Config) (base : Image)
    (captions : list Cue) (font : Font) (t : Q) :
  size (_composite_caption cfg base captions font t) = size base /\
  (filter (cue_active t) captions = [] -> _composite_caption cfg base captions font t = base) /\
  exists new,
    pastes (_composite_caption cfg base captions font t) = (pastes base ++ new)%list /\
    map fst new
    = map (fun c => _render_caption cfg (cue_text c) font) (filter (cue_active t) captions) /\
    Forall (fun paste =>
              fst (size (fst paste)) = VIDEO_WIDTH cfg /\
              fst (snd paste) = 0 /\ 0 <= snd (snd paste) /\
              (0 <= VIDEO_WIDTH cfg ->
               snd (size (fst paste)) <= VIDEO_HEIGHT cfg ->
               paste_inside (size (fst paste)) (snd paste)
                            (VIDEO_WIDTH cfg, VIDEO_HEIGHT cfg)) /\
              (VIDEO_HEIGHT cfg <= snd (size (fst paste)) -> snd (snd paste) = 0))
           new.
Proof.
  split; [apply composite_caption_size |].
  split; [intro E; unfold _composite_caption; rewrite E; reflexivity |].
  eexists. split; [| split].
  - unfold _composite_caption.
    destruct (filter (cue_active t) captions) as [| c active] eqn:E.
    + rewrite <- (app_nil_r (pastes base)) at 1.
      instantiate (1 := map _ (filter (cue_active t) captions)). rewrite E. reflexivity.
    + rewrite pastes_fold_paste, E. reflexivity.
  - rewrite map_map. reflexivity.
  - apply Forall_forall. intros [ov [x y]] Hin. apply in_map_iff in Hin.
    destruct Hin as [c [Hc _]]. inversion Hc; subst. clear Hc.
    cbn [fst snd size _render_caption]. unfold paste_inside. cbn [fst snd].
    repeat split; try lia.
Qed.

Example caption_overlay_position :
  pastes (_composite_caption default_config (Pixels "frame" 1080 1920)
            [ {| cue_start := 0; cue_end := 2; cue_text := "one two three" |} ]
            {| font_size := 58; wrapped_lines := fun _ => 1 |} 1)
  = [ (Layer "one two three" (1080, 127), (0, 1319)) ].
Proof. reflexivity. Qed.

(** ** Text *)

Lemma append_nil_r (s : string) : String.append s "" = s.
Proof. induction s as [| c s IH]; simpl; [reflexivity | rewrite IH; reflexivity]. Qed.

Lemma append_assoc (a b c : string) :
  String.append (String.append a b) c = String.append a (String.append b c).
Proof. induction a as [| x a IH]; simpl; [reflexivity | rewrite IH; reflexivity]. Qed.

Lemma no_space_append (a b : string) :
  no_space (String.append a b) = no_space a && no_space b.
Proof.
  induction a as [| c a IH]; simpl; [reflexivity |].
  rewrite IH, andb_assoc. reflexivity.
Qed.

Lemma split_from_words (s : string) :
  forall word, no_space word = true -> Forall is_word (split_from s word).
Proof.
  induction s as [| c s IH]; intros word Hw; simpl.
  - destruct (String.eqb word "") eqn:E; constructor; [| constructor].
    apply String.eqb_neq in E. split; assumption.
  - destruct (is_space c) eqn:Ec.
    + destruct (String.eqb word "") eqn:E.
      * apply IH. reflexivity.
      * constructor; [| apply IH; reflexivity].
        apply String.eqb_neq in E. split; assumption.
    + apply IH. rewrite no_space_append, Hw. simpl. rewrite Ec. reflexivity.
Qed.

Lemma split_words (s : string) : Forall is_word (split s).
Proof. apply split_from_words. reflexivity. Qed.

Lemma rstrip_no_space (s : string) : no_space s = true -> rstrip s = s.
Proof.
  induction s as [| c s IH]; intro H; [reflexivity |].
  simpl in H. apply andb_true_iff in H. destruct H as [Hc Hs].
  simpl. rewrite (IH Hs). apply negb_true_iff in Hc. rewrite Hc.
  destruct s; reflexivity.
Qed.

Lemma rstrip_append (a b : string) :
  b <> "" -> rstrip b = b -> rstrip (String.append a b) = String.append a b.
Proof.
  intros Hb Eb. induction a as [| c a IH]; [exact Eb |].
  simpl. rewrite IH.
  destruct (String.append a b) eqn:E; [| reflexivity].
  destruct a; simpl in E; [contradiction | discriminate].
Qed.

Lemma lstrip_word_start (s rest : string) :
  is_word s -> lstrip (String.append s rest) = String.append s rest.
Proof.
  intros [Hne Hns]. destruct s as [| c s]; [contradiction |].
  simpl in Hns. apply andb_true_iff in Hns. destruct Hns as [Hc _].
  apply negb_true_iff in Hc. simpl. rewrite Hc. reflexivity.
Qed.

Lemma concat_snoc (sep : string) (g : list string) (w : string) :
  g <> [] ->
  String.concat sep (g ++ [w])
  = String.append (String.concat sep g) (String.append sep w).
Proof.
  induction g as [| x g IH]; intro H; [contradiction |].
  destruct g as [| y g].
  - reflexivity.
  - change (String.concat sep ((x :: y :: g) ++ [w]))
      with (String.append x (String.append sep (String.concat sep ((y :: g) ++ [w])))).
    rewrite IH by discriminate.
    change (String.concat sep (x :: y :: g))
      with (String.append x (String.append sep (String.concat sep (y :: g)))).
    rewrite !append_assoc. reflexivity.
Qed.

Lemma concat_words_start (g : list string) (x : string) :
  exists rest, String.concat " " (x :: g) = String.append x rest.
Proof.
  destruct g as [| y g].
  - exists "". simpl. rewrite append_nil_r. reflexivity.
  - eexists. reflexivity.
Qed.

Lemma concat_words_nonempty (g : list string) :
  Forall is_word g -> g <> [] -> String.concat " " g <> "".
Proof.
  intros Hg Hne. destruct g as [| x g]; [contradiction |].
  destruct (concat_words_start g x) as [rest E]. rewrite E.
  inversion Hg as [| ? ? [Hx _] _]; subst.
  destruct x; [contradiction | discriminate].
Qed.

(** [f"{cur} {word}".strip()] when [cur] is the words of [g] joined by
    single spaces. *)
Lemma strip_join_word (g : list string) (w : string) :
  Forall is_word g -> is_word w ->
  strip (String.append (String.concat " " g) (String.append " " w))
  = String.concat " " (g ++ [w]).
Proof.
  intros Hg Hw. pose proof Hw as [Hwne Hwns]. unfold strip.
  destruct g as [| x g].
  - simpl.
    assert (lstrip w = w) as El.
    { pose proof (lstrip_word_start w "" Hw) as H. rewrite append_nil_r in H. exact H. }
    rewrite El. apply rstrip_no_space. exact Hwns.
  - rewrite concat_snoc by discriminate.
    destruct (concat_words_start g x) as [rest E]. rewrite E.
    inversion Hg as [| ? ? Hx _]; subst.
    rewrite append_assoc, (lstrip_word_start x _ Hx), <- append_assoc.
    rewrite <- append_assoc.
    apply rstrip_append; [exact Hwne | apply rstrip_no_space; exact Hwns].
Qed.

(** ** Word wrap *)

Lemma wrap_fold_groups (getbbox_width : string -> Z) (max_w : Z) (words : list string) :
  forall gs g,
    Forall is_word words -> Forall is_word g ->
    Forall (fun grp => grp <> [] /\ line_fits getbbox_width max_w grp) gs ->
    (g = [] \/ line_fits getbbox_width max_w g) ->
    exists gs' g',
      fold_left (wrap_step getbbox_width max_w) words
                (map (String.concat " ") gs, String.concat " " g)
      = (map (String.concat " ") gs', String.concat " " g') /\
      (List.concat gs' ++ g' = List.concat gs ++ g ++ words)%list /\
      Forall (fun grp => grp <> [] /\ line_fits getbbox_width max_w grp) gs' /\
      Forall is_word g' /\
      (g' = [] \/ line_fits getbbox_width max_w g').
Proof.
  induction words as [| w words IH]; intros gs g Hwords Hg Hgs Hfit.
  - exists gs, g. rewrite app_nil_r. repeat split; assumption.
  - inversion Hwords as [| ? ? Hw Hrest]; subst.
    cbn [fold_left wrap_step].
    rewrite (strip_join_word g w Hg Hw).
    destruct ((max_w <? getbbox_width (String.concat " " (g ++ [w])))
              && negb (String.eqb (String.concat " " g) "")) eqn:Econd.
    + apply andb_true_iff in Econd. destruct Econd as [_ Ene].
      apply negb_true_iff, String.eqb_neq in Ene.
      assert (g <> []) as Hgne by (intro E; subst g; apply Ene; reflexivity).
      destruct (IH (gs ++ [g])%list [w]) as (gs' & g' & Hfold & Hcat & Hgs' & Hg' & Hfit');
        try assumption.
      * constructor; [exact Hw | constructor].
      * apply Forall_app. split; [exact Hgs |]. constructor; [| constructor].
        split; [exact Hgne |]. destruct Hfit as [E | F]; [contradiction | exact F].
      * right. left. reflexivity.
      * exists gs', g'. rewrite map_app in Hfold. split; [exact Hfold |].
        split; [| repeat split; assumption].
        rewrite Hcat, concat_app. simpl. rewrite app_nil_r, <- !app_assoc. reflexivity.
    + destruct (IH gs (g ++ [w])%list) as (gs' & g' & Hfold & Hcat & Hgs' & Hg' & Hfit');
        try assumption.
      * apply Forall_app. split; [exact Hg | constructor; [exact Hw | constructor]].
      * right. apply andb_false_iff in Econd. destruct Econd as [E | E].
        -- right. apply Z.ltb_ge in E. exact E.
        -- left. apply negb_false_iff, String.eqb_eq in E.
           destruct g as [| x g]; [reflexivity |].
           exfalso. apply (concat_words_nonempty (x :: g) Hg); [discriminate | exact E].
      * exists gs', g'. split; [exact Hfold |].
        split; [| repeat split; assumption].
        rewrite Hcat, <- !app_assoc. reflexivity.
Qed.

Lemma wrap_text_groups (getbbox_width : string -> Z) (max_w : Z) (text : string) :
  exists groups,
    wrap_text getbbox_width max_w text = map (String.concat " ") groups /\
    List.concat groups = split text /\
    Forall (Forall is_word) groups /\
    Forall (fun grp => grp <> [] /\ line_fits getbbox_width max_w grp) groups.
Proof.
  destruct (wrap_fold_groups getbbox_width max_w (split text) [] []) as (gs & g & Hfold & Hcat & Hgs & Hg & Hfit).
  - apply split_words.
  - constructor.
  - constructor.
  - left. reflexivity.
  - simpl in Hfold, Hcat. unfold wrap_text. rewrite Hfold.
    assert (Forall is_word (List.concat gs)) as Hwords.
    { pose proof (split_words text) as H. rewrite <- Hcat in H.
      apply Forall_app in H. apply H. }
    assert (Forall (Forall is_word) gs) as Hall.
    { clear - Hwords. induction gs as [| x gs IH]; [constructor |].
      simpl in Hwords. apply Forall_app in Hwords. destruct Hwords as [Hx Hr].
      constructor; [exact Hx | apply IH; exact Hr]. }
    destruct g as [| x g].
    + exists gs. simpl. rewrite app_nil_r in Hcat. repeat split; assumption.
    + assert (String.eqb (String.concat " " (x :: g)) "" = false) as E.
      { apply String.eqb_neq. apply concat_words_nonempty; [exact Hg | discriminate]. }
      rewrite E. cbn [negb].
      exists (gs ++ [x :: g])%list. rewrite map_app. split; [reflexivity |].
      split; [rewrite concat_app; simpl; rewrite app_nil_r; exact Hcat |].
      split.
      * apply Forall_app. split; [exact Hall | constructor; [exact Hg | constructor]].
      * apply Forall_app. split; [exact Hgs |]. constructor; [| constructor].
        split; [discriminate |]. destruct Hfit as [F | F]; [discriminate | exact F].
Qed.

(** X11. The greedy word wrap of [_render_caption] loses, repeats and reorders
    no word: its lines are the words of [text.split()], in order, grouped and
    joined by single spaces. No line is empty, there are at most as many lines
    as words, and a line that is wider than the limit consists of a single
    word. *)
Theorem word_wrap_keeps_every_word (getbbox_width : string -> Z) (max_w : Z)
    (text : string) :
  exists groups : list (list string),
    wrap_text getbbox_width max_w text = map (String.concat " ") groups /\
    List.concat groups = split text /\
    Forall (fun grp =>
              grp <> [] /\ String.concat " " grp <> "" /\
              (max_w < getbbox_width (String.concat " " grp) -> List.length grp = 1%nat))
           groups /\
    (List.length (wrap_text getbbox_width max_w text) <= List.length (split text))%nat.
Proof.
  destruct (wrap_text_groups getbbox_width max_w text) as (groups & Hw & Hcat & Hwords & Hfit).
  exists groups. split; [exact Hw |]. split; [exact Hcat |]. split.
  - rewrite Forall_forall in *. intros grp Hin.
    destruct (Hfit grp Hin) as [Hne Hf]. split; [exact Hne |]. split.
    + apply concat_words_nonempty; [apply Hwords; exact Hin | exact Hne].
    + intro Hwide. destruct Hf as [Hf | Hf]; [exact Hf | lia].
  - rewrite Hw, length_map, <- Hcat.
    clear - Hfit. induction groups as [| grp groups IH]; [apply Nat.le_refl |].
    inversion Hfit as [| ? ? [Hne _] Hrest]; subst.
    simpl. rewrite length_app. specialize (IH Hrest).
    destruct grp; [contradiction | simpl; lia].
Qed.

Example wrap_text_example :
  wrap_text (fun s => 10 * Z.of_nat (String.length s)) 100
            "  the quick  brown fox jumps over extraordinarily lazy dogs "
  = [ "the quick"; "brown fox"; "jumps over"; "extraordinarily"; "lazy dogs" ].
Proof. vm_compute. reflexivity. Qed.

Example caption_height_counts_wrapped_lines :
  size (_render_caption default_config "the quick brown fox"
          (metric_font default_config 58 (fun s => 300 * Z.of_nat (String.length s))))
  = (1080, 87 * 4 + 40).
Proof. vm_compute. reflexivity. Qed.

(** ** Captions *)

Example format_timestamp_example :
  _format_timestamp 3725.25 = "01:02:05,250" /\
  _format_timestamp 0 = "00:00:00,000" /\
  _format_timestamp 59.999 = "00:00:59,999" /\
  _format_timestamp 360000 = "100:00:00,000".
Proof. repeat split; vm_compute; reflexivity. Qed.

Example generate_captions_example :
  generate_captions
    (Some [ {| segment_words :=
                 Some [ {| word_start := 0;   word_end := 0.4; word_text := " Did" |};
                        {| word_start := 0.4; word_end := 0.7; word_text := " you" |};
                        {| word_start := 0.7; word_end := 1.1; word_text := " know" |};
                        {| word_start := 1.1; word_end := 1.5; word_text := " this?" |} ] |} ])
  = String.concat newline
      [ "1"; "00:00:00,000 --> 00:00:01,100"; "Did you know"; "";
        "2"; "00:00:01,100 --> 00:00:01,500"; "this?"; "" ].
Proof. vm_compute. reflexivity. Qed.




















(** ** Subtitles on the frame clock *)

Lemma ms_le_frame_time (a i f : Z) :
  0 < f ->
  Qle_bool (inject_Z a / 1000) (inject_Z i / inject_Z f) = (a * f <=? 1000 * i).
Proof.
  intro Hf.
  assert (0 < inject_Z f)%Q as Hqf
    by (change 0%Q with (inject_Z 0); rewrite <- Zlt_Qlt; exact Hf).
  assert ((inject_Z a / 1000 <= inject_Z i / inject_Z f)%Q <-> a * f <= 1000 * i) as E.
  { rewrite (Zle_Qle (a * f)), !inject_Z_mult. change (inject_Z 1000) with 1000%Q.
    split; intro H.
    - apply (Qmult_le_compat_r _ _ (1000 * inject_Z f)) in H; [| lra].
      setoid_replace (inject_Z a / 1000 * (1000 * inject_Z f))%Q
        with (inject_Z a * inject_Z f)%Q in H by (field; lra).
      setoid_replace (inject_Z i / inject_Z f * (1000 * inject_Z f))%Q
        with (1000 * inject_Z i)%Q in H by (field; lra).
      exact H.
    - apply Qle_shift_div_l; [exact Hqf |].
      setoid_replace (inject_Z a / 1000 * inject_Z f)%Q
        with (inject_Z a * inject_Z f / 1000)%Q by (field; lra).
      apply Qle_shift_div_r; [lra |]. lra. }
  destruct (Z.leb_spec (a * f) (1000 * i)) as [Hle | Hgt].
  - apply Qle_bool_iff, E. exact Hle.
  - apply not_true_iff_false. rewrite Qle_bool_iff, E. lia.
Qed.

Lemma frame_time_lt_ms (b i f : Z) :
  0 < f ->
  Qltb (inject_Z i / inject_Z f) (inject_Z b / 1000) = (1000 * i <? b * f).
Proof.
  intro Hf. unfold Qltb. rewrite ms_le_frame_time by exact Hf.
  rewrite Z.ltb_antisym. reflexivity.
Qed.

Lemma filter_parse_srt (f : Cue -> bool) (subs : list SubRipItem) :
  filter f (_parse_srt subs)
  = _parse_srt (filter (fun s => f {| cue_start := (inject_Z (item_start s) / 1000)%Q;
                                      cue_end := (inject_Z (item_end s) / 1000)%Q;
                                      cue_text := replace_newlines (item_text s) |})
                       subs).
Proof.
  induction subs as [| s subs IH]; [reflexivity |].
  cbn [_parse_srt map filter]. fold (_parse_srt subs).
  destruct (f _); cbn [_parse_srt map]; rewrite IH; reflexivity.
Qed.

Lemma replace_newlines_length (s : string) :
  String.length (replace_newlines s) = String.length s.
Proof. induction s as [| c s IH]; simpl; [reflexivity | rewrite IH; reflexivity]. Qed.

Lemma replace_newlines_clean (s : string) (c : Ascii.ascii) :
  In c (list_ascii_of_string (replace_newlines s)) -> c <> Ascii.ascii_of_nat 10.
Proof.
  induction s as [| x s IH]; simpl; [intros [] |].
  intros [E | Hin]; [| exact (IH Hin)].
  destruct (Ascii.eqb x (Ascii.ascii_of_nat 10)) eqn:Ex.
  - subst c. discriminate.
  - subst c. apply Ascii.eqb_neq. exact Ex.
Qed.

(** X14. The subtitles [_parse_srt] reads are burnt onto the frames by whole
    milliseconds: on frame [frame_idx] of a video of [VIDEO_FPS > 0] frames
    per second, the overlays pasted by [_composite_caption] are those of the
    items with [start_ms * fps <= 1000 * frame_idx < end_ms * fps], in the
    order of the file, each with its line breaks turned into spaces. An item
    that does not end after it starts is on no frame. *)
Theorem parsed_subtitles_shown_by_milliseconds (cfg : Config) (base : Image) (font : Font)
    (subs : list SubRipItem) (frame_idx : Z) :
  0 < VIDEO_FPS cfg ->
  let t := (inject_Z frame_idx / inject_Z (VIDEO_FPS cfg))%Q in
  let shown :=
    filter (fun s => (item_start s * VIDEO_FPS cfg <=? 1000 * frame_idx)
                     && (1000 * frame_idx <? item_end s * VIDEO_FPS cfg)) subs in
  pasted (_composite_caption cfg base (_parse_srt subs) font t)
  = (pasted base
     ++ map (fun s => _render_caption cfg (replace_newlines (item_text s)) font) shown)%list /\
  (forall s, item_end s <= item_start s -> ~ In s shown) /\
  (forall s c,
     In c (list_ascii_of_string (replace_newlines (item_text s))) ->
     c <> Ascii.ascii_of_nat 10).
Proof.
  intros Hfps t shown. split; [| split].
  - rewrite pasted_composite_caption, filter_parse_srt. f_equal.
    unfold _parse_srt. rewrite map_map. cbn [cue_text].
    f_equal. unfold shown. apply filter_ext. intro s.
    unfold cue_active, t. cbn [cue_start cue_end].
    rewrite ms_le_frame_time, frame_time_lt_ms by exact Hfps. reflexivity.
  - intros s Hend Hin. unfold shown in Hin. apply filter_In in Hin.
    destruct Hin as [_ Hin]. apply andb_true_iff in Hin. destruct Hin as [H1 H2].
    apply Z.leb_le in H1. apply Z.ltb_lt in H2. nia.
  - intros s c Hc. exact (replace_newlines_clean _ _ Hc).
Qed.

Lemma parsed_subtitles_shown_by_milliseconds_witness :
  pasted (_composite_caption default_config (Pixels "frame" 1080 1920)
            (_parse_srt [ {| item_start := 0; item_end := 1000; item_text := "one" |};
                          {| item_start := 1000; item_end := 2500; item_text := "two" |} ])
            {| font_size := 58; wrapped_lines := fun _ => 1 |} (inject_Z 30 / inject_Z 30))
  = [ Layer "two" (1080, 127) ].
Proof.
  refine (eq_trans
            (proj1 (parsed_subtitles_shown_by_milliseconds default_config
                      (Pixels "frame" 1080 1920)
                      {| font_size := 58; wrapped_lines := fun _ => 1 |}
                      [ {| item_start := 0; item_end := 1000; item_text := "one" |};
                        {| item_start := 1000; item_end := 2500; item_text := "two" |} ]
                      30 _)) _).
  - reflexivity.
  - reflexivity.
Defined.

(** ** The incoming scene at a cut *)




(** ** Which visuals [build_video] uses, and the shortest voiceover *)

(** X16. The background clips are only a fallback for an empty list of scene
    images. With at least one scene image given the clips play no part:
    [build_video] does what it does without any clips, and when none of the
    images loads it raises [ValueError] although clips were handed over. *)
Theorem background_clips_only_replace_an_empty_image_list (w : World) (cfg : Config)
    (image : Path) (images : list Path) (voiceover_path : Path)
    (captions_srt_path : option Path) (output_path : Path)
    (background_music_path : option Path) (background_clips : option (list Path))
    (language : string) :
  build_video w cfg (image :: images) voiceover_path captions_srt_path output_path
              background_music_path background_clips language
  = build_video w cfg (image :: images) voiceover_path captions_srt_path output_path
                background_music_path None language /\
  (find_ffmpeg w <> None ->
   usable cfg (image_open w) (image :: images) = [] ->
   build_video w cfg (image :: images) voiceover_path captions_srt_path output_path
               background_music_path background_clips language
   = inl (ValueError "Failed to prepare any visual frames")).
Proof.
  split; [reflexivity |].
  intros Hff Hnone. unfold build_video, _get_ffmpeg.
  destruct (find_ffmpeg w) as [exe |]; [| contradiction].
  cbn [bind Monad_either ret].
  unfold prepare_visuals, _load_images_for_kb. rewrite fold_load_one, Hnone.
  reflexivity.
Qed.

Lemma background_clips_only_replace_an_empty_image_list_witness :
  build_video (scenario_world 5000 None) default_config [["scenes"; "broken.png"]]
              ["run"; "voiceover.mp3"] None ["run"; "final_video.mp4"] None
              (Some [["clips"; "clip0.mp4"]]) "en"
  = inl (ValueError "Failed to prepare any visual frames").
Proof.
  apply (background_clips_only_replace_an_empty_image_list (scenario_world 5000 None)
           default_config ["scenes"; "broken.png"] [] ["run"; "voiceover.mp3"] None
           ["run"; "final_video.mp4"] None (Some [["clips"; "clip0.mp4"]]) "en").
  - discriminate.
  - reflexivity.
Defined.

(** X17. A voiceover shorter than one frame is no error. If the audio lasts
    [ms >= 0] milliseconds with [ms * VIDEO_FPS < 1000] (and the cap
    [MAX_DURATION] is not negative), then - with ffmpeg found, a usable
    visual and an encoder that exits with 0 - [build_video] returns normally
    and has written no frame at all. *)
Theorem voiceover_below_one_frame_gives_no_frames (w : World) (cfg : Config)
    (scene_images : list Path) (voiceover_path : Path) (captions_srt_path : option Path)
    (output_path : Path) (background_music_path : option Path)
    (background_clips : option (list Path)) (language : string) :
  find_ffmpeg w <> None ->
  encoder_returncode w = 0 ->
  1 <= VIDEO_WIDTH cfg ->
  usable_visuals w cfg scene_images background_clips <> [] ->
  0 <= VIDEO_FPS cfg -> 0 <= MAX_DURATION cfg ->
  0 <= audio_ms w voiceover_path ->
  audio_ms w voiceover_path * VIDEO_FPS cfg < 1000 ->
  exists v,
    build_video w cfg scene_images voiceover_path captions_srt_path output_path
                background_music_path background_clips language = inr v /\
    video_frames v = [] /\
    video_path v = output_path.
Proof.
  intros Hff Hrc Hvw Husable Hfps Hmax Hms Hshort.
  assert (total_frames cfg (target_duration w cfg voiceover_path) = 0) as Etotal.
  { unfold total_frames, target_duration, _audio_duration.
    set (a := (inject_Z (audio_ms w voiceover_path) / 1000)%Q).
    assert (0 <= a)%Q as Ha0.
    { unfold a. apply Qle_shift_div_l; [lra |]. rewrite Qmult_0_l.
      change 0%Q with (inject_Z 0). rewrite <- Zle_Qle. exact Hms. }
    assert (0 <= inject_Z (VIDEO_FPS cfg))%Q as Hf0
      by (change 0%Q with (inject_Z 0); rewrite <- Zle_Qle; exact Hfps).
    assert (0 <= inject_Z (MAX_DURATION cfg))%Q as Hm0
      by (change 0%Q with (inject_Z 0); rewrite <- Zle_Qle; exact Hmax).
    assert (a * inject_Z (VIDEO_FPS cfg) < 1)%Q as Ha1.
    { setoid_replace (a * inject_Z (VIDEO_FPS cfg))%Q
        with (inject_Z (audio_ms w voiceover_path * VIDEO_FPS cfg) / 1000)%Q
        by (unfold a; rewrite inject_Z_mult; field).
      apply Qlt_shift_div_r; [lra |]. rewrite Qmult_1_l.
      change 1000%Q with (inject_Z 1000). rewrite <- Zlt_Qlt. exact Hshort. }
    set (m := pymin a (inject_Z (MAX_DURATION cfg))).
    assert ((0 <= m)%Q /\ (m <= a)%Q) as [Hm1 Hm2].
    { unfold m, pymin. destruct (Qltb (inject_Z (MAX_DURATION cfg)) a) eqn:E.
      - apply Qltb_lt in E. split; lra.
      - split; lra. }
    apply int_unique; [| | lia].
    - change (inject_Z 0) with 0%Q. apply Qmult_le_0_compat; assumption.
    - change (inject_Z (0 + 1)) with 1%Q.
      apply Qle_lt_trans with (a * inject_Z (VIDEO_FPS cfg))%Q; [| exact Ha1].
      apply Qmult_le_compat_r; assumption. }
  destruct (build_video_returns w cfg scene_images voiceover_path captions_srt_path
              output_path background_music_path background_clips language
              Hff Hrc Hvw Husable) as (v & Hv & _ & Hlen).
  exists v. split; [exact Hv |]. split.
  - rewrite Etotal in Hlen. destruct (video_frames v) as [| f fs]; [reflexivity |].
    exfalso. unfold frames_written in Hlen. destruct (encoder_reads w); simpl in Hlen.
    + rewrite Nat.min_0_r in Hlen. discriminate.
    + discriminate.
  - revert Hv. unfold build_video.
    destruct (_get_ffmpeg w) as [e | exe]; cbn [bind Monad_either ret]; [discriminate |].
    destruct (prepare_visuals w cfg scene_images background_clips) as [e | [kb out]];
      cbn [bind Monad_either ret]; [discriminate |].
    destruct (fdiv _ _) as [e | d]; cbn [bind Monad_either ret]; [discriminate |].
    destruct (render_loop _ _ _ _) as [e | frames]; cbn [bind Monad_either ret];
      [discriminate |].
    destruct (negb _); [discriminate |].
    intro H. injection H as H. rewrite <- H. reflexivity.
Qed.

Lemma voiceover_below_one_frame_gives_no_frames_witness :
  exists v,
    build_video (scenario_world 20 None) default_config (scenario_images 2)
                ["run"; "voiceover.mp3"] None ["run"; "final_video.mp4"] None None "en"
    = inr v /\
    video_frames v = [] /\
    video_path v = ["run"; "final_video.mp4"].
Proof.
  apply (voiceover_below_one_frame_gives_no_frames (scenario_world 20 None) default_config
           (scenario_images 2) ["run"; "voiceover.mp3"] None ["run"; "final_video.mp4"]
           None None "en").
  - discriminate.
  - reflexivity.
  - simpl. lia.
  - vm_compute. discriminate.
  - simpl. lia.
  - simpl. lia.
  - simpl. lia.
  - simpl. lia.
Defined.

(** ** The two effects that zoom and pan *)







(** ** An effect name the engine does not know *)

(** X19. An effect name that is none of the eight of [KB_EFFECTS] raises
    nothing: on a canvas at least as large as the viewport
    [_apply_ken_burns] returns the same still picture at every progress, the
    crop of the viewport's size centred on the canvas, not resampled. *)
Theorem unknown_effect_gives_the_still_centred_crop (cfg : Config) (img : Image)
    (effect : string) (p : Q) :
  ~ In effect KB_EFFECTS ->
  1 <= VIDEO_WIDTH cfg <= fst (size img) ->
  1 <= VIDEO_HEIGHT cfg <= snd (size img) ->
  _apply_ken_burns cfg img effect p
  = inr (Crop img (centered_box (size img) (VIDEO_WIDTH cfg) (VIDEO_HEIGHT cfg))).
Proof.
  intros Hunknown Hw Hh.
  assert (forall name, In name KB_EFFECTS -> String.eqb effect name = false) as Hne.
  { intros name Hin. apply String.eqb_neq. intro E. subst name. contradiction. }
  unfold _apply_ken_burns. destruct (size img) as [iw ih] eqn:Esz.
  simpl fst in *. simpl snd in *.
  unfold kb_rect.
  rewrite !Hne by (unfold KB_EFFECTS; simpl; tauto).
  cbn [bind Monad_either ret].
  rewrite kb_clamp_centered by lia. unfold centered_box. simpl fst. simpl snd.
  apply crop_viewport_not_resized.
Qed.

Lemma unknown_effect_gives_the_still_centred_crop_witness :
  _apply_ken_burns default_config (Pixels "scene0" 1350 2400) "spin" 0.5
  = inr (Crop (Pixels "scene0" 1350 2400) (135, 240, 135 + 1080, 240 + 1920)).
Proof.
  apply (unknown_effect_gives_the_still_centred_crop default_config
           (Pixels "scene0" 1350 2400) "spin" 0.5).
  - unfold KB_EFFECTS. simpl. intros [H | [H | [H | [H | [H | [H | [H | [H | []]]]]]]]];
      discriminate.
  - simpl. lia.
  - simpl. lia.
Defined.
